(** * Celox.js (Secure Share): the envelope scheme and the read-once record

    A shallow embedding of [src/lib/crypto.ts], [src/models/message.ts],
    [src/lib/modelValidationError.ts] and the two API routes
    ([src/app/api/message/route.ts], [src/app/api/message/[stub]/route.ts]).

    Conventions.
    - A JavaScript string is the list of its UTF-16 code units, each a [Z].
      A [Uint8Array] is a list of [Z] in [0, 256).  Literal messages that the
      code only ever writes (validation messages, error texts) stay Rocq
      strings.
    - An [async] function is a program over the operations of its platform
      (the Prisma client, [crypto], [console], [Date], Web Crypto): a
      finite tree whose nodes are the calls and whose leaves are a returned
      value or a thrown exception.  Running such a tree against a world gives
      the sequential behaviour; stepping several trees under a schedule gives
      the behaviour of overlapping requests, which interleave at [await]. *)

From Stdlib Require Import ZArith Lia List String Ascii Bool Zbitwise.
From stdpp Require Import gmap strings list fin_maps.
Import ListNotations.

(** ** JavaScript strings *)

Abbreviation jsstring := (list Z) (only parsing).

Module JS.

(** The code units of a literal of the source (all literals are ASCII). *)
Definition lit (s : string) : jsstring :=
  map (fun a => Z.of_N (N_of_ascii a)) (list_ascii_of_string s).

(** [s.length] *)
Definition length (s : jsstring) : Z := Z.of_nat (List.length s).

(** [s[i]] rendered by [join('')]: the unit at [i], nothing when [i] is out
    of range ([undefined] joins as the empty string). *)
Definition at_joined (s : jsstring) (i : nat) : jsstring :=
  match nth_error s i with
  | Some c => [c]
  | None => []
  end.

(** [result += s[i]]: the unit at [i]; out of range the text [undefined]
    is appended. *)
Definition at_appended (s : jsstring) (i : nat) : jsstring :=
  match nth_error s i with
  | Some c => [c]
  | None => lit "undefined"
  end.

(** [x || ''] for [x : string | null] *)
Definition or_empty (x : option jsstring) : jsstring :=
  match x with
  | Some s => s
  | None => []
  end.

End JS.

(** ** Programs over platform operations *)

Module Prog.
Section Prog.
Context {Op : Type -> Type} {Exn : Type}.

Inductive prog (A : Type) : Type :=
| Ret (a : A)
| Throw (e : Exn)
| Vis (X : Type) (op : Op X) (k : X -> prog A).

Arguments Ret {A} a.
Arguments Throw {A} e.
Arguments Vis {A X} op k.

Fixpoint bind {A B} (m : prog A) (f : A -> prog B) : prog B :=
  match m with
  | Ret a => f a
  | Throw e => Throw e
  | Vis op k => Vis op (fun x => bind (k x) f)
  end.

(** [try { m } catch (e) { h e }] *)
Fixpoint try_catch {A} (m : prog A) (h : Exn -> prog A) : prog A :=
  match m with
  | Ret a => Ret a
  | Throw e => h e
  | Vis op k => Vis op (fun x => try_catch (k x) h)
  end.

(** A call of an operation that always returns. *)
Definition call {X} (op : Op X) : prog X := Vis op Ret.

(** A call of an operation that returns or throws. *)
Definition call_throwing {X} (op : Op (Exn + X)) : prog X :=
  Vis op (fun r => match r with inl e => Throw e | inr x => Ret x end).

Section Run.
Context {W : Type} (handle : forall X, Op X -> W -> X * W).

(** Run to completion, one call after the other. *)
Fixpoint run {A} (m : prog A) (w : W) : (Exn + A) * W :=
  match m with
  | Ret a => (inr a, w)
  | Throw e => (inl e, w)
  | Vis op k => let '(x, w') := handle _ op w in run (k x) w'
  end.

(** The calls a run makes, in order. *)
Fixpoint calls_of {A} (m : prog A) (w : W) : list (sigT Op) :=
  match m with
  | Vis op k => let '(x, w') := handle _ op w in existT _ op :: calls_of (k x) w'
  | _ => []
  end.

(** Resume a suspended program: run it up to and including its next
    suspending call ([suspends op = true], an awaited one).  A finished
    program stays as it is. *)
Fixpoint resume (suspends : forall X, Op X -> bool) {A} (m : prog A) (w : W)
  : prog A * W :=
  match m with
  | Vis op k =>
      let '(x, w') := handle _ op w in
      if suspends _ op then (k x, w') else resume suspends (k x) w'
  | _ => (m, w)
  end.
End Run.
End Prog.

Arguments prog : clear implicits.
Arguments Ret {Op Exn A} a.
Arguments Throw {Op Exn A} e.
Arguments Vis {Op Exn A X} op k.

Module Notations.
Notation "'let*' x ':=' m 'in' k" := (bind m (fun x => k))
  (at level 10, x name, m at level 100, k at level 200).
Notation "'let*' ' p ':=' m 'in' k" := (bind m (fun x => match x with p => k end))
  (at level 10, p pattern, m at level 100, k at level 200).
Notation "'run*' m 'in' k" := (bind m (fun _ => k))
  (at level 10, m at level 100, k at level 200).
End Notations.
End Prog.

(** ** [btoa] and [atob]

    The two functions of the HTML standard that [crypto.ts] calls: [btoa]
    encodes a string of code units below 256 with the alphabet of RFC 4648
    and pads with [=]; [atob] is the forgiving decoder.  Both throw an
    [InvalidCharacterError] on the inputs they refuse; here they return
    [None]. *)

Module Base64.
Local Open Scope Z_scope.

Definition alphabet : jsstring :=
  JS.lit "ABCDEFGHIJKLMNOPQRSTUVWXYZabcdefghijklmnopqrstuvwxyz0123456789+/".

Definition pad : Z := 61.

(** The character of a six-bit value. *)
Definition char_of (v : Z) : Z := nth (Z.to_nat v) alphabet 0.

Fixpoint index_from (i : Z) (table : jsstring) (c : Z) : option Z :=
  match table with
  | [] => None
  | t :: table' => if c =? t then Some i else index_from (i + 1) table' c
  end.

(** The six-bit value of a character of the alphabet. *)
Definition index_of (c : Z) : option Z := index_from 0 alphabet c.

(** Three bytes make four characters; a last group of one byte is padded
    with zero bits to twelve bits and makes two characters and [==], one
    of two bytes is padded to eighteen bits and makes three and [=]. *)
Fixpoint encode (bytes : list Z) : jsstring :=
  match bytes with
  | [] => []
  | [a] =>
      let n := a * 16 in
      [char_of (n / 64); char_of (n mod 64); pad; pad]
  | [a; b] =>
      let n := (a * 256 + b) * 4 in
      [char_of (n / 4096); char_of (n / 64 mod 64); char_of (n mod 64); pad]
  | a :: b :: c :: rest =>
      let n := a * 65536 + b * 256 + c in
      [char_of (n / 262144); char_of (n / 4096 mod 64);
       char_of (n / 64 mod 64); char_of (n mod 64)] ++ encode rest
  end.

(** The characters of [encode] before the padding, and the padding. *)
Fixpoint encode_body (bytes : list Z) : jsstring :=
  match bytes with
  | [] => []
  | [a] => let n := a * 16 in [char_of (n / 64); char_of (n mod 64)]
  | [a; b] =>
      let n := (a * 256 + b) * 4 in
      [char_of (n / 4096); char_of (n / 64 mod 64); char_of (n mod 64)]
  | a :: b :: c :: rest =>
      let n := a * 65536 + b * 256 + c in
      [char_of (n / 262144); char_of (n / 4096 mod 64);
       char_of (n / 64 mod 64); char_of (n mod 64)] ++ encode_body rest
  end.

Fixpoint padding (bytes : list Z) : jsstring :=
  match bytes with
  | [] => []
  | [a] => [pad; pad]
  | [a; b] => [pad]
  | a :: b :: c :: rest => padding rest
  end.

Definition sextet (v : Z) : Prop := 0 <= v < 64.

Definition is_char (c : Z) : Prop := exists v, sextet v /\ c = char_of v.

Definition btoa (data : jsstring) : option jsstring :=
  if forallb (fun c => c <=? 255) data then Some (encode data) else None.

Definition ascii_whitespace (c : Z) : bool :=
  (c =? 9) || (c =? 10) || (c =? 12) || (c =? 13) || (c =? 32).

(** Step 2 of the forgiving decoder: when the length is a multiple of
    four, one or two [=] at the end are removed. *)
Definition strip_padding (data : jsstring) : jsstring :=
  if Z.of_nat (List.length data) mod 4 =? 0 then
    match rev data with
    | p :: q :: front =>
        if p =? pad then
          if q =? pad then rev front else rev (q :: front)
        else data
    | [p] => if p =? pad then [] else data
    | [] => data
    end
  else data.

(** Steps 8 to 10: six bits of each character enter the buffer; at 24 bits
    the buffer is emitted as three bytes; what remains at the end is 12
    bits (one byte, four bits dropped) or 18 bits (two bytes, two bits
    dropped). *)
Fixpoint decode_loop (data : jsstring) (buffer bits : Z) : list Z :=
  match data with
  | [] =>
      if bits =? 12 then [buffer / 16]
      else if bits =? 18 then [buffer / 4 / 256; buffer / 4 mod 256]
      else []
  | c :: rest =>
      let buffer := buffer * 64 + default 0 (index_of c) in
      let bits := bits + 6 in
      if bits =? 24
      then [buffer / 65536; buffer / 256 mod 256; buffer mod 256]
           ++ decode_loop rest 0 0
      else decode_loop rest buffer bits
  end.

Definition forgiving_decode (data : jsstring) : option (list Z) :=
  let data := List.filter (fun c => negb (ascii_whitespace c)) data in
  let data := strip_padding data in
  if Z.of_nat (List.length data) mod 4 =? 1 then None
  else if forallb (fun c => bool_decide (is_Some (index_of c))) data
  then Some (decode_loop data 0 0)
  else None.

Definition atob (data : jsstring) : option jsstring := forgiving_decode data.

End Base64.

(** ** [TextEncoder] and [TextDecoder]

    [new TextEncoder().encode(s)] first reads [s] as a sequence of scalar
    values (an unpaired surrogate becomes U+FFFD) and encodes each in UTF-8.
    [new TextDecoder().decode(bytes)] is the UTF-8 decoder of the Encoding
    standard in its default mode: an ill-formed sequence yields U+FFFD, and
    a U+FEFF that comes out first is dropped ([ignoreBOM] is false). *)

Module Encoding.
Local Open Scope Z_scope.

Definition in_range (lo hi c : Z) : bool := (lo <=? c) && (c <=? hi).

Definition is_lead_surrogate := in_range 0xD800 0xDBFF.
Definition is_trail_surrogate := in_range 0xDC00 0xDFFF.

Definition REPLACEMENT : Z := 0xFFFD.
Definition BOM : Z := 0xFEFF.

(** [s.isWellFormed()], for a list of code units: every unit is below
    65536, every lead surrogate is followed by a trail surrogate and no
    trail surrogate stands alone. *)
Fixpoint well_formed (s : jsstring) : bool :=
  match s with
  | [] => true
  | c :: rest =>
      in_range 0 0xFFFF c &&
      (if is_lead_surrogate c then
         match rest with
         | d :: rest' => is_trail_surrogate d && well_formed rest'
         | [] => false
         end
       else negb (is_trail_surrogate c) && well_formed rest)
  end.

(** A Unicode scalar value. *)
Definition scalar (cp : Z) : Prop :=
  0 <= cp <= 0x10FFFF /\ ~ (0xD800 <= cp <= 0xDFFF).

(** The scalar values of a string. *)
Fixpoint to_scalars (s : jsstring) : list Z :=
  match s with
  | [] => []
  | c :: rest =>
      if is_lead_surrogate c then
        match rest with
        | d :: rest' =>
            if is_trail_surrogate d
            then (0x10000 + (c - 0xD800) * 0x400 + (d - 0xDC00)) :: to_scalars rest'
            else REPLACEMENT :: to_scalars rest
        | [] => [REPLACEMENT]
        end
      else if is_trail_surrogate c then REPLACEMENT :: to_scalars rest
      else c :: to_scalars rest
  end.

(** The string of a sequence of scalar values. *)
Definition from_scalar (cp : Z) : jsstring :=
  if cp <? 0x10000 then [cp]
  else [0xD800 + Z.shiftr (cp - 0x10000) 10;
        0xDC00 + Z.land (cp - 0x10000) 0x3FF].

Definition from_scalars (cps : list Z) : jsstring := flat_map from_scalar cps.

(** The continuation bytes of the UTF-8 encoder, [count] of them. *)
Fixpoint continuation (cp : Z) (count : nat) : list Z :=
  match count with
  | O => []
  | S n =>
      Z.lor 0x80 (Z.land (Z.shiftr cp (6 * Z.of_nat n)) 0x3F)
      :: continuation cp n
  end.

Definition utf8_encode_scalar (cp : Z) : list Z :=
  if in_range 0 0x7F cp then [cp]
  else
    let '(count, offset) :=
      if in_range 0x80 0x7FF cp then (1%nat, 0xC0)
      else if in_range 0x800 0xFFFF cp then (2%nat, 0xE0)
      else (3%nat, 0xF0) in
    (Z.shiftr cp (6 * Z.of_nat count) + offset) :: continuation cp count.

Definition TextEncoder_encode (s : jsstring) : list Z :=
  flat_map utf8_encode_scalar (to_scalars s).

(** The state of the UTF-8 decoder. *)
Record Utf8 := mkUtf8 {
  code_point : Z;
  bytes_seen : Z;
  bytes_needed : Z;
  lower_boundary : Z;
  upper_boundary : Z;
}.

Definition utf8_initial : Utf8 := mkUtf8 0 0 0 0x80 0xBF.

(** A byte read when no bytes are needed: what it emits and the state it
    leaves. *)
Definition utf8_lead (byte : Z) : list Z * Utf8 :=
  if in_range 0x00 0x7F byte then ([byte], utf8_initial)
  else if in_range 0xC2 0xDF byte then
    ([], mkUtf8 (Z.land byte 0x1F) 0 1 0x80 0xBF)
  else if in_range 0xE0 0xEF byte then
    ([], mkUtf8 (Z.land byte 0xF) 0 2
           (if byte =? 0xE0 then 0xA0 else 0x80)
           (if byte =? 0xED then 0x9F else 0xBF))
  else if in_range 0xF0 0xF4 byte then
    ([], mkUtf8 (Z.land byte 0x7) 0 3
           (if byte =? 0xF0 then 0x90 else 0x80)
           (if byte =? 0xF4 then 0x8F else 0xBF))
  else ([REPLACEMENT], utf8_initial).

Fixpoint utf8_decode_from (st : Utf8) (bytes : list Z) : list Z :=
  match bytes with
  | [] => if bytes_needed st =? 0 then [] else [REPLACEMENT]
  | byte :: rest =>
      if bytes_needed st =? 0 then
        let '(out, st') := utf8_lead byte in out ++ utf8_decode_from st' rest
      else if negb (in_range (lower_boundary st) (upper_boundary st) byte) then
        (* the byte is put back and read again from the initial state *)
        let '(out, st') := utf8_lead byte in
        REPLACEMENT :: out ++ utf8_decode_from st' rest
      else
        let cp := Z.lor (Z.shiftl (code_point st) 6) (Z.land byte 0x3F) in
        let seen := bytes_seen st + 1 in
        if seen =? bytes_needed st
        then cp :: utf8_decode_from utf8_initial rest
        else utf8_decode_from (mkUtf8 cp seen (bytes_needed st) 0x80 0xBF) rest
  end.

Definition strip_bom (cps : list Z) : list Z :=
  match cps with
  | cp :: rest => if cp =? BOM then rest else cps
  | [] => []
  end.

Definition TextDecoder_decode (bytes : list Z) : jsstring :=
  from_scalars (strip_bom (utf8_decode_from utf8_initial bytes)).

End Encoding.

(** ** The envelope scheme: [src/lib/crypto.ts] *)

Module Crypto.
Import Prog Prog.Notations.
Local Open Scope Z_scope.

Record CipherObject := mkCipherObject {
  data : jsstring;
  iv : jsstring;
  salt : jsstring;
}.

(** A [CryptoKey]: its algorithm and its key material. *)
Record CryptoKey := mkCryptoKey {
  algorithm : string;
  material : list Z;
}.

Inductive Exn :=
| InvalidCharacterError
| OperationError
| QuotaExceededError
| RangeError.

Inductive TypedArray :=
| Uint8Array
| Uint32Array.

Definition element_bytes (kind : TypedArray) : Z :=
  match kind with
  | Uint8Array => 1
  | Uint32Array => 4
  end.

(** The calls into the platform that depend on it or can throw:
    [new Uint8Array(length)] and [new Uint32Array(length)],
    [String.fromCharCode.apply(null, codes)], and those into
    [window.crypto]. *)
Inductive Op : Type -> Type :=
| NewTypedArray (kind : TypedArray) (length : Z) : Op (Exn + list Z)
| GetRandomValues (kind : TypedArray) (array : list Z) : Op (Exn + list Z)
| FromCharCodeApply (codes : list Z) : Op (Exn + jsstring)
| ImportKey (format : string) (keyData : list Z) (algorithm : string) : Op CryptoKey
| DeriveKey (salt : list Z) (iterations : Z) (hash : string)
            (baseKey : CryptoKey) (derived : string) (length : Z) : Op CryptoKey
| Encrypt (iv : list Z) (key : CryptoKey) (data : list Z) : Op (Exn + list Z)
| Decrypt (iv : list Z) (key : CryptoKey) (data : list Z) : Op (Exn + list Z).

Abbreviation M := (prog Op Exn).

(** A platform function that throws a [DOMException] where it refuses. *)
Definition or_throw {A} (e : Exn) (r : option A) : M A :=
  match r with
  | Some a => Ret a
  | None => Throw e
  end.

(** [String.fromCharCode.apply(null, Array.from(new Uint8Array(buffer)))],
    one argument for each byte, then [btoa]. *)
Definition arrayBufferToBase64 (buffer : list Z) : M jsstring :=
  let* binary := call_throwing (FromCharCodeApply buffer) in
  or_throw InvalidCharacterError (Base64.btoa binary).

(** [atob], then [bytes[i] = binary.charCodeAt(i)] into a [Uint8Array]. *)
Definition base64ToArrayBuffer (base64 : jsstring) : M (list Z) :=
  let* binary := or_throw InvalidCharacterError (Base64.atob base64) in
  Ret (map (fun c => c mod 256) binary).

Definition deriveKey (password : jsstring) (salt : list Z) (iterations : Z)
  : M CryptoKey :=
  let* baseKey :=
    call (ImportKey "raw" (Encoding.TextEncoder_encode password) "PBKDF2") in
  call (DeriveKey salt iterations "SHA-256" baseKey "AES-GCM" 256).

Definition decrypt (data : CipherObject) (password : jsstring) : M jsstring :=
  let* iv := base64ToArrayBuffer (iv data) in
  let* salt := base64ToArrayBuffer (salt data) in
  let* encryptedData := base64ToArrayBuffer (Crypto.data data) in
  let* key := deriveKey password salt 10000 in
  let* decryptedContent := call_throwing (Decrypt iv key encryptedData) in
  Ret (Encoding.TextDecoder_decode decryptedContent).

Definition encrypt (data password : jsstring) : M CipherObject :=
  let* salt_array := call_throwing (NewTypedArray Uint8Array 16) in
  let* salt := call_throwing (GetRandomValues Uint8Array salt_array) in
  let* key := deriveKey password salt 10000 in
  let* iv_array := call_throwing (NewTypedArray Uint8Array 12) in
  let* iv := call_throwing (GetRandomValues Uint8Array iv_array) in
  let* encryptedContent :=
    call_throwing (Encrypt iv key (Encoding.TextEncoder_encode data)) in
  let* d := arrayBufferToBase64 encryptedContent in
  let* i := arrayBufferToBase64 iv in
  let* s := arrayBufferToBase64 salt in
  Ret {| data := d; iv := i; salt := s |}.

Definition characters : jsstring :=
  JS.lit "ABCDEFGHIJKLMNOPQRSTUVWXYZabcdefghijklmnopqrstuvwxyz0123456789".

(** The loop of [generateRandomString] over the random values. *)
Fixpoint pick_characters (randomValues : list Z) (result : jsstring) : jsstring :=
  match randomValues with
  | [] => result
  | v :: rest =>
      let randomIndex := v mod Z.of_nat (List.length characters) in
      pick_characters rest (result ++ JS.at_appended characters (Z.to_nat randomIndex))
  end.

(** [length] is a whole number; the loop runs over the [length] elements
    of the array. *)
Definition generateRandomString (length : Z) : M jsstring :=
  let* randomValues := call_throwing (NewTypedArray Uint32Array length) in
  let* randomValues := call_throwing (GetRandomValues Uint32Array randomValues) in
  Ret (pick_characters randomValues []).

(** *** The platform of the browser

    PBKDF2 and AES-GCM are the platform's; the code only relies on what
    they are documented to do.  [pbkdf2 hash password salt iterations bits]
    is the derived key material; [aes_gcm_open] is [None] where
    [subtle.decrypt] rejects with an [OperationError].

    Two limits belong to the engine and differ from one engine to the
    next: the number of arguments one call can take ([max_arguments], some
    tens of thousands to a few hundred thousand), above which
    [Function.prototype.apply] throws a [RangeError], and the greatest
    length of a typed array the engine allocates
    ([max_typed_array_length]), above which its constructor throws a
    [RangeError]. *)
Record Primitives := mkPrimitives {
  pbkdf2 : string -> list Z -> list Z -> Z -> Z -> list Z;
  aes_gcm_seal : list Z -> list Z -> list Z -> list Z;
  aes_gcm_open : list Z -> list Z -> list Z -> option (list Z);
  max_arguments : Z;
  max_typed_array_length : Z;
}.

Definition is_byte (b : Z) : Prop := 0 <= b < 256.

(** The greatest length the constructor of a typed array takes: what the
    engine allocates, and never above 2^53 - 1, where [ToIndex] throws. *)
Definition array_limit (P : Primitives) : Z :=
  Z.min (max_typed_array_length P) 9007199254740991.

(** An [ArrayBuffer] holds bytes; AES-GCM appends its tag of sixteen bytes
    to the ciphertext, which is as long as the plaintext; opening what was
    sealed under the same key and iv gives the bytes back; and a typed
    array of sixteen elements can be had. *)
Record Lawful (P : Primitives) : Prop := {
  seal_bytes : forall key iv m, Forall is_byte (aes_gcm_seal P key iv m);
  seal_length : forall key iv m,
    List.length (aes_gcm_seal P key iv m) = (List.length m + 16)%nat;
  open_seal : forall key iv m,
    Forall is_byte m -> aes_gcm_open P key iv (aes_gcm_seal P key iv m) = Some m;
  small_arrays : 16 <= max_typed_array_length P;
}.

(** The secure generator (the values it will hand out, in order, and how
    many were drawn). *)
Record World := mkWorld {
  entropy : nat -> Z;
  drawn : nat;
}.

(** What [getRandomValues] writes into an array of [n] elements: the next
    [n] values of the generator, each reduced to the width of an element. *)
Definition random_values (kind : TypedArray) (w : World) (n : nat) : list Z :=
  map (fun i => entropy w (drawn w + i)%nat mod 2 ^ (8 * element_bytes kind))
    (seq 0 n).

Definition after (w : World) (n : nat) : World :=
  {| entropy := entropy w; drawn := (drawn w + n)%nat |}.

(** A typed array is made of zeros, unless its length is negative or above
    what the engine allows; [getRandomValues] refuses an array of more than
    65536 bytes and fills any other; [apply] refuses more arguments than
    the engine allows, and [String.fromCharCode] takes each of its
    arguments modulo 65536. *)
Definition handle (P : Primitives) (X : Type) (op : Op X) (w : World) : X * World :=
  match op in Op X return X * World with
  | NewTypedArray kind n =>
      if (n <? 0) || (array_limit P <? n) then (inl RangeError, w)
      else (inr (repeat 0 (Z.to_nat n)), w)
  | GetRandomValues kind array =>
      let n := List.length array in
      if 65536 <? element_bytes kind * Z.of_nat n then (inl QuotaExceededError, w)
      else (inr (random_values kind w n), after w n)
  | FromCharCodeApply codes =>
      if max_arguments P <? Z.of_nat (List.length codes) then (inl RangeError, w)
      else (inr (map (fun b => b mod 65536) codes), w)
  | ImportKey _ keyData alg => ({| algorithm := alg; material := keyData |}, w)
  | DeriveKey salt iterations hash baseKey derived bits =>
      ({| algorithm := derived;
          material := pbkdf2 P hash (material baseKey) salt iterations bits |}, w)
  | Encrypt iv key m => (inr (aes_gcm_seal P (material key) iv m), w)
  | Decrypt iv key c =>
      (match aes_gcm_open P (material key) iv c with
       | Some m => inr m
       | None => inl OperationError
       end, w)
  end.

Definition exec (P : Primitives) {A} (m : M A) (w : World) : (Exn + A) * World :=
  run (handle P) m w.

(** The calls a run makes, in order. *)
Definition calls (P : Primitives) {A} (m : M A) (w : World) : list (sigT Op) :=
  calls_of (handle P) m w.

(** The key [deriveKey] resolves to. *)
Definition derived (P : Primitives) (password : jsstring) (salt : list Z) : CryptoKey :=
  {| algorithm := "AES-GCM";
     material :=
       pbkdf2 P "SHA-256" (Encoding.TextEncoder_encode password) salt 10000 256 |}.

(** The envelope [encrypt] resolves to, spelt out. *)
Definition envelope (P : Primitives) (plaintext password : jsstring) (w : World)
  : CipherObject :=
  let salt := random_values Uint8Array w 16 in
  let iv := random_values Uint8Array (after w 16) 12 in
  {| data := Base64.encode
               (aes_gcm_seal P (material (derived P password salt)) iv
                  (Encoding.TextEncoder_encode plaintext));
     iv := Base64.encode iv;
     salt := Base64.encode salt |}.

(** *** A stand-in platform for examples

    Not PBKDF2 and not AES-GCM: the key material is the byte sum of
    password and salt, repeated; sealing adds a key stream byte to every
    byte and appends a sixteen-byte tag, opening checks the tag.  A call
    takes up to 65536 arguments and a typed array up to 2^32 - 1
    elements. *)
Module Toy.
Definition sum (l : list Z) : Z := fold_right Z.add 0 l.

Definition pbkdf2 (hash : string) (password salt : list Z) (iterations bits : Z)
  : list Z :=
  repeat ((sum password + sum salt + iterations) mod 256) (Z.to_nat (bits / 8)).

Definition stream (key iv : list Z) : Z := (sum key + sum iv) mod 256.

Definition tag (key iv : list Z) : list Z := repeat (stream key iv) 16.

Definition seal (key iv m : list Z) : list Z :=
  map (fun b => (b + stream key iv) mod 256) m ++ tag key iv.

Definition open (key iv c : list Z) : option (list Z) :=
  let n := (List.length c - 16)%nat in
  if bool_decide (skipn n c = tag key iv /\ (16 <= List.length c)%nat)
  then Some (map (fun b => (b - stream key iv) mod 256) (firstn n c))
  else None.

Definition primitives : Primitives :=
  {| Crypto.pbkdf2 := pbkdf2; aes_gcm_seal := seal; aes_gcm_open := open;
     max_arguments := 65536; max_typed_array_length := 4294967295 |}.
End Toy.

End Crypto.

(** ** The message model: [src/models/message.ts] *)

Module Model.
Import Prog Prog.Notations.

(** A row of the [Message] table as the code reads it.  The columns [id],
    [createdAt] and [updatedAt] are assigned by the store and never read by
    the code; the table is keyed by [stub], which carries a unique index. *)
Record Message := mkMessage {
  content : jsstring;
  readAt : option Z;
  stub : jsstring;
}.

(** [errors: Record<string, string[]>], with its two keys. *)
Record Errors := mkErrors {
  err_content : list string;
  err_stub : list string;
}.

Inductive Exn :=
| ModelValidationError (errors : Errors) (name : string)
| PrismaClientKnownRequestError (code : string).

Inductive LogEntry :=
| WarnAttemptFailed (attempt : nat)
| ErrorFailedAfter (retries : nat)
| ErrorCaught (e : Exn).

(** What the model and the routes ask of their platform. *)
Inductive Op : Type -> Type :=
| FindUnique (stub : jsstring) : Op (option Message)
| FindManyStubIn (candidates : list jsstring) : Op (list jsstring)
| Create (content stub : jsstring) : Op (Exn + Message)
| Update (stub content : jsstring) (readAt : Z) : Op (Exn + Message)
| Delete (stub : jsstring) : Op (Exn + Message)
| RandomInt (max : nat) : Op nat
| NewDate : Op Z
| Console (entry : LogEntry) : Op unit.

Abbreviation M := (prog Op Exn).

Definition SENTINEL : jsstring := JS.lit "DEADBEEF".

Definition characters : jsstring :=
  JS.lit "ABCDEFGHIJKLMNOPQRSTUVWXYZabcdefghijklmnopqrstuvwxyz0123456789".

(** [Array.from({ length }, () => characters[crypto.randomInt(characters.length)]).join('')] *)
Fixpoint randomCandidate (stubLength : nat) : M jsstring :=
  match stubLength with
  | O => Ret []
  | S n =>
      let* r := call (RandomInt (List.length characters)) in
      let* rest := randomCandidate n in
      Ret (JS.at_joined characters r ++ rest)
  end.

(** The inner [for (let i = 0; i < batchSize; i++)] loop. *)
Fixpoint randomCandidates (batchSize stubLength : nat) : M (list jsstring) :=
  match batchSize with
  | O => Ret []
  | S n =>
      let* candidate := randomCandidate stubLength in
      let* rest := randomCandidates n stubLength in
      Ret (candidate :: rest)
  end.

(** [for (const candidate of candidates) if (!stubSet.has(candidate)) return candidate] *)
Definition firstUntaken (stubSet : gset jsstring) (candidates : list jsstring)
  : option jsstring :=
  List.find (fun candidate => negb (bool_decide (candidate ∈ stubSet))) candidates.

(** The outer [for (let retry = 0; retry < retries; retry++)] loop, with
    [remaining = retries - retry]. *)
Fixpoint generateUniqueStub_from (retry remaining retries batchSize stubLength : nat)
  : M (option jsstring) :=
  match remaining with
  | O =>
      run* call (Console (ErrorFailedAfter retries)) in
      Ret None
  | S remaining' =>
      let* candidates := randomCandidates batchSize stubLength in
      let* stubs := call (FindManyStubIn candidates) in
      let stubSet : gset jsstring := list_to_set stubs in
      match firstUntaken stubSet candidates with
      | Some candidate => Ret (Some candidate)
      | None =>
          run* call (Console (WarnAttemptFailed (retry + 1))) in
          generateUniqueStub_from (S retry) remaining' retries batchSize stubLength
      end
  end.

Definition generateUniqueStub (batchSize retries stubLength : nat)
  : M (option jsstring) :=
  generateUniqueStub_from 0 retries retries batchSize stubLength.

(** [/[^a-zA-Z0-9]/] on one code unit *)
Definition alphanumeric (c : Z) : bool :=
  ((97 <=? c) && (c <=? 122) || (65 <=? c) && (c <=? 90)
   || (48 <=? c) && (c <=? 57))%Z.

(** [data.stub.match(/[^a-zA-Z0-9]/)] is truthy *)
Definition matches_non_alphanumeric (s : jsstring) : bool :=
  existsb (fun c => negb (alphanumeric c)) s.

Definition push_content (errors : Errors) (msg : string) : Errors :=
  {| err_content := err_content errors ++ [msg]; err_stub := err_stub errors |}.

Definition push_stub (errors : Errors) (msg : string) : Errors :=
  {| err_content := err_content errors; err_stub := err_stub errors ++ [msg] |}.

Definition push_if (b : bool) (push : Errors -> string -> Errors)
    (msg : string) (errors : Errors) : Errors :=
  if b then push errors msg else errors.

(** [Object.values(errors).some((error) => error.length > 0)] *)
Definition some_nonempty (errors : Errors) : bool :=
  existsb (fun error => (0 <? Z.of_nat (List.length error))%Z)
    [err_content errors; err_stub errors].

Definition validateMessage (data : Message) : M unit :=
  let errors := {| err_content := []; err_stub := [] |} in
  let errors :=
    push_if (bool_decide ((content data) = [])) push_content
      "Content is required" errors in
  let errors :=
    push_if (10000 <? JS.length (content data))%Z push_content
      "Content is too long" errors in
  let errors :=
    push_if (bool_decide ((stub data) = [])) push_stub
      "Stub is required" errors in
  let errors :=
    push_if ((JS.length (stub data) <? 8) || (32 <? JS.length (stub data)))%Z
      push_stub "Stub must be between 8 and 32 characters" errors in
  let* found := call (FindUnique (stub data)) in
  let errors :=
    push_if (bool_decide (is_Some found)) push_stub
      "Stub must be unique" errors in
  let errors :=
    push_if (matches_non_alphanumeric (stub data)) push_stub
      "Stub must be alphanumeric" errors in
  if some_nonempty errors
  then Throw (ModelValidationError errors "Message")
  else Ret tt.

(** The [errors] object [validateMessage] has built when it decides,
    against a table [d]. *)
Definition validation_errors (d : gmap jsstring Message) (data : Message) : Errors :=
  let errors := {| err_content := []; err_stub := [] |} in
  let errors :=
    push_if (bool_decide (content data = [])) push_content
      "Content is required" errors in
  let errors :=
    push_if (10000 <? JS.length (content data))%Z push_content
      "Content is too long" errors in
  let errors :=
    push_if (bool_decide (stub data = [])) push_stub
      "Stub is required" errors in
  let errors :=
    push_if ((JS.length (stub data) <? 8) || (32 <? JS.length (stub data)))%Z
      push_stub "Stub must be between 8 and 32 characters" errors in
  let errors :=
    push_if (bool_decide (is_Some (d !! stub data))) push_stub
      "Stub must be unique" errors in
  push_if (matches_non_alphanumeric (stub data)) push_stub
    "Stub must be alphanumeric" errors.

(** The field rules of [validateMessage], in the order it checks them. *)
Inductive Rule :=
| ContentRequired
| ContentTooLong
| StubRequired
| StubLength
| StubUnique
| StubAlphanumeric.

Definition violated (d : gmap jsstring Message) (data : Message) (r : Rule) : bool :=
  match r with
  | ContentRequired => bool_decide (content data = [])
  | ContentTooLong => (10000 <? JS.length (content data))%Z
  | StubRequired => bool_decide (stub data = [])
  | StubLength => ((JS.length (stub data) <? 8) || (32 <? JS.length (stub data)))%Z
  | StubUnique => bool_decide (is_Some (d !! stub data))
  | StubAlphanumeric => matches_non_alphanumeric (stub data)
  end.

Definition message (r : Rule) : string :=
  match r with
  | ContentRequired => "Content is required"
  | ContentTooLong => "Content is too long"
  | StubRequired => "Stub is required"
  | StubLength => "Stub must be between 8 and 32 characters"
  | StubUnique => "Stub must be unique"
  | StubAlphanumeric => "Stub must be alphanumeric"
  end.

Definition content_rules : list Rule := [ContentRequired; ContentTooLong].

Definition stub_rules : list Rule :=
  [StubRequired; StubLength; StubUnique; StubAlphanumeric].

Definition createMessage (content : jsstring) : M Message :=
  let* generated := generateUniqueStub 5 3 8 in
  let stub := JS.or_empty generated in
  run* validateMessage {| content := content; readAt := None; stub := stub |} in
  call_throwing (Create content stub).

Definition deleteMessage (stub : jsstring) : M Message :=
  call_throwing (Delete stub).

Definition getMessage (stub : jsstring) : M (option Message) :=
  call (FindUnique stub).

Definition markMessageAsRead (stub : jsstring) : M (option Message) :=
  let* message := call (FindUnique stub) in
  match message with
  | None => Ret None
  | Some m =>
      match readAt m with
      | Some _ => Ret None
      | None =>
          let* now := call NewDate in
          let* updated := call_throwing (Update stub SENTINEL now) in
          Ret (Some updated)
      end
  end.

(** *** The platform of the server

    The table, the secure generator behind [crypto.randomInt] (the values
    it will hand out, in order, and how many were drawn), the clock behind
    [new Date()] and the console. *)
Record World := mkWorld {
  db : gmap jsstring Message;
  entropy : nat -> nat;
  drawn : nat;
  clock : Z;
  console : list LogEntry;
}.

Definition with_db (w : World) (d : gmap jsstring Message) : World :=
  {| db := d; entropy := entropy w; drawn := drawn w; clock := clock w;
     console := console w |}.

Definition P2002 : Exn := PrismaClientKnownRequestError "P2002".
Definition P2025 : Exn := PrismaClientKnownRequestError "P2025".

(** A string the store keeps as it is: well-formed UTF-16 without U+0000.
    PostgreSQL refuses a text that holds U+0000, and an unpaired surrogate
    does not survive the way to the store. *)
Definition storable (s : jsstring) : Prop :=
  Encoding.well_formed s = true /\ ~ In 0%Z s.

(** One call against the platform.  [findMany] returns the rows in an
    order the store chooses; the code only builds a [Set] from them.
    [create] fails on the unique index of [stub] (P2002); [update] and
    [delete] fail when no row has the stub (P2025).  The table is followed
    on the strings it can hold ([storable]); what the store does with
    other strings is not part of it. *)
Definition handle (X : Type) (op : Op X) (w : World) : X * World :=
  match op in Op X return X * World with
  | FindUnique s => (db w !! s, w)
  | FindManyStubIn candidates =>
      (List.filter (fun c => bool_decide (is_Some (db w !! c)))
         (remove_dups candidates), w)
  | Create c s =>
      match db w !! s with
      | Some _ => (inl P2002, w)
      | None =>
          let row := {| content := c; readAt := None; stub := s |} in
          (inr row, with_db w (<[s := row]> (db w)))
      end
  | Update s c t =>
      match db w !! s with
      | None => (inl P2025, w)
      | Some _ =>
          let row := {| content := c; readAt := Some t; stub := s |} in
          (inr row, with_db w (<[s := row]> (db w)))
      end
  | Delete s =>
      match db w !! s with
      | None => (inl P2025, w)
      | Some row => (inr row, with_db w (delete s (db w)))
      end
  | RandomInt max =>
      (entropy w (drawn w) mod max,
       {| db := db w; entropy := entropy w; drawn := S (drawn w);
          clock := clock w; console := console w |})
  | NewDate => (clock w, w)
  | Console entry =>
      (tt, {| db := db w; entropy := entropy w; drawn := drawn w;
              clock := clock w; console := console w ++ [entry] |})
  end.

(** The calls the code awaits: the queries of the Prisma client. *)
Definition suspends (X : Type) (op : Op X) : bool :=
  match op with
  | FindUnique _ | FindManyStubIn _ | Create _ _ | Update _ _ _ | Delete _ => true
  | RandomInt _ | NewDate | Console _ => false
  end.

Definition exec {A} (m : M A) (w : World) : (Exn + A) * World :=
  run handle m w.

(** What [validateMessage] decides: it returns, or it throws a
    [ModelValidationError] that has [msg] under the given field. *)
Definition accepted (w : World) (data : Message) : Prop :=
  fst (exec (validateMessage data) w) = inr tt.

Definition rejected_with (w : World) (data : Message)
    (field : Errors -> list string) (msg : string) : Prop :=
  exists errors,
    fst (exec (validateMessage data) w)
      = inl (ModelValidationError errors "Message") /\
    In msg (field errors).

(** A program that returns, and leaves the table as it was. *)
Definition quiet {A} (m : M A) : Prop :=
  forall w, exists a w', exec m w = (inr a, w') /\ db w' = db w.

End Model.

(** ** The API routes *)

Module Route.
Import Prog Prog.Notations Model.

Inductive Body :=
| StubBody (stub : jsstring)
| ErrorsBody (errors : Errors)
| ErrorBody (error : string)
| MessageBody (message : jsstring) (readAt : option Z)
| SuccessBody.

Record Response := json { body : Body; status : Z }.

Definition unexpected : Response :=
  json (ErrorBody "An unexpected error has occurred") 500.

(** [src/app/api/message/route.ts]; [request_text] is what
    [await request.text()] resolves to. *)
Definition POST (request_text : jsstring) : M Response :=
  try_catch
    (let content := request_text in
     let* message := createMessage content in
     Ret (json (StubBody (stub message)) 200))
    (fun error =>
       run* call (Console (ErrorCaught error)) in
       match error with
       | ModelValidationError errors _ => Ret (json (ErrorsBody errors) 422)
       | _ => Ret unexpected
       end).

(** [src/app/api/message/[stub]/route.ts] *)
Definition GET (params_stub : jsstring) : M Response :=
  try_catch
    (let* message := getMessage params_stub in
     match message with
     | None => Ret (json (ErrorBody "Message not found") 404)
     | Some m =>
         run* markMessageAsRead params_stub in
         Ret (json (MessageBody (content m) (readAt m)) 200)
     end)
    (fun error =>
       run* call (Console (ErrorCaught error)) in
       Ret unexpected).

(** The handler as it is written, for a first argument that has [params].
    Next.js passes the request first and the route context second; the
    handler is followed here on the stub it is meant to receive. *)
Definition DELETE (params_stub : jsstring) : M Response :=
  try_catch
    (run* deleteMessage params_stub in
     Ret (json SuccessBody 200))
    (fun error =>
       run* call (Console (ErrorCaught error)) in
       Ret unexpected).

End Route.

(** ** Overlapping requests

    Each request in flight is a program; the event loop resumes one of them
    at a time, and a resumed program runs up to its next awaited query.
    Between two resumptions the clock may advance. *)

Module Concurrent.
Import Prog Model.

Inductive Event :=
| Resume (request : nat)
| Advance (ms : Z).

Section Pool.
Context {A : Type}.

Definition State : Type := list (M A) * World.

Definition step (st : State) (ev : Event) : State :=
  let '(pool, w) := st in
  match ev with
  | Advance ms =>
      (pool, {| db := db w; entropy := entropy w; drawn := drawn w;
                clock := (clock w + ms)%Z; console := console w |})
  | Resume i =>
      match pool !! i with
      | Some m =>
          let '(m', w') := resume handle suspends m w in
          (<[i := m']> pool, w')
      | None => st
      end
  end.

Definition interleave (schedule : list Event) (st : State) : State :=
  fold_left step schedule st.

(** What request [i] has returned, once it has. *)
Definition returned (st : State) (i : nat) : option A :=
  match fst st !! i with
  | Some (Ret r) => Some r
  | _ => None
  end.
End Pool.

Arguments State : clear implicits.

End Concurrent.

(** ** Worlds and inputs used in the examples *)

Module Fixture.
Local Open Scope Z_scope.

Definition abcdefgh : jsstring := JS.lit "abcdefgh".
Definition secret : jsstring := JS.lit "secret".
Definition hello : jsstring := JS.lit "hello".
Definition pw : jsstring := JS.lit "pw".

Definition server (rows : list Model.Message) : Model.World :=
  {| Model.db := list_to_map (map (fun m => (Model.stub m, m)) rows);
     Model.entropy := fun _ => 0%nat;
     Model.drawn := 0;
     Model.clock := 1000;
     Model.console := [] |}.

(** One unread message. *)
Definition pending : Model.World :=
  server [Model.mkMessage secret None abcdefgh].

(** One message that was read at time 900. *)
Definition consumed : Model.World :=
  server [Model.mkMessage Model.SENTINEL (Some 900) abcdefgh].

(** The generator only ever hands out 0, so every candidate is
    [AAAAAAAA], and that stub is taken. *)
Definition taken : Model.World :=
  server [Model.mkMessage secret None (JS.lit "AAAAAAAA")].

Definition empty : Model.World := server [].

Definition browser : Crypto.World :=
  {| Crypto.entropy := fun n => Z.of_nat n * 7 + 3; Crypto.drawn := 0 |}.

(** The text [hi] after a byte order mark. *)
Definition bom_hi : jsstring := [0xFEFF; 104; 105].

(** A string of [n] letters [a]. *)
Definition letters (n : Z) : jsstring := repeat 97 (Z.to_nat n).

End Fixture.

(** ** The requests a server has in flight *)

Module Server.
Import Prog Model Route.

Inductive Request :=
| Post (request_text : jsstring)
| Get (stub : jsstring)
| Delete (stub : jsstring).

Definition serve (r : Request) : M Response :=
  match r with
  | Post request_text => POST request_text
  | Get s => GET s
  | Delete s => DELETE s
  end.

(** Every row that has been read holds the sentinel. *)
Definition read_rows_hold_sentinel (d : gmap jsstring Message) : Prop :=
  forall s m, d !! s = Some m -> readAt m <> None -> content m = SENTINEL.

(** The row under [s] has been read and holds the sentinel. *)
Definition consumed_at (d : gmap jsstring Message) (s : jsstring) : Prop :=
  exists m, d !! s = Some m /\ readAt m <> None /\ content m = SENTINEL.

(** A program all of whose calls, whatever they return, satisfy [ok]. *)
Fixpoint every_call (ok : forall X, Op X -> Prop) {A} (m : M A) : Prop :=
  match m with
  | Vis op k => ok _ op /\ forall x, every_call ok (k x)
  | _ => True
  end.

(** An [update] that writes the sentinel, or any other call. *)
Definition writes_sentinel (X : Type) (op : Op X) : Prop :=
  match op with
  | Update _ c _ => c = SENTINEL
  | _ => True
  end.

(** Any call but a [delete]. *)
Definition keeps_rows (X : Type) (op : Op X) : Prop :=
  match op with
  | Model.Delete _ => False
  | _ => True
  end.

(** Any call but a [delete], and an [update] only of the sentinel. *)
Definition consumes_only (X : Type) (op : Op X) : Prop :=
  writes_sentinel X op /\ keeps_rows X op.

(** A result a call can have had against a table whose read rows hold the
    sentinel: a row that [findUnique] returned is such a row. *)
Definition plausible (X : Type) (op : Op X) : X -> Prop :=
  match op in Op X return X -> Prop with
  | FindUnique _ =>
      fun found => forall m, found = Some m -> readAt m <> None -> content m = SENTINEL
  | _ => fun _ => True
  end.

(** A program that can only return values that satisfy [good], whatever
    plausible results its calls have. *)
Fixpoint every_return {A} (good : A -> Prop) (m : M A) : Prop :=
  match m with
  | Ret a => good a
  | Throw _ => True
  | Vis op k => forall x, plausible _ op x -> every_return good (k x)
  end.

(** A response that does not report a read message together with content
    other than the sentinel. *)
Definition read_means_sentinel (r : Response) : Prop :=
  forall c t st, r = json (MessageBody c (Some t)) st -> c = SENTINEL.

(** A program in flight: its updates write the sentinel and it can only
    return what [good] allows. *)
Definition in_order {A} (good : A -> Prop) (m : M A) : Prop :=
  every_call writes_sentinel m /\ every_return good m.

Definition is_delete (r : Request) : bool :=
  match r with
  | Delete _ => true
  | _ => false
  end.

End Server.

(** ** Envelopes as text *)

Module Wire.
Import Crypto.

(** A field without its ASCII whitespace. *)
Definition squeeze (s : jsstring) : jsstring :=
  List.filter (fun c => negb (Base64.ascii_whitespace c)) s.

(** Two envelopes whose fields differ only in ASCII whitespace. *)
Definition same_but_whitespace (a b : CipherObject) : Prop :=
  squeeze (data a) = squeeze (data b) /\
  squeeze (iv a) = squeeze (iv b) /\
  squeeze (salt a) = squeeze (salt b).

(** A unit of base64 text: a character of the alphabet or the padding. *)
Definition base64_unit (c : Z) : Prop :=
  is_Some (Base64.index_of c) \/ c = Base64.pad.

(** A UTF-16 code unit. *)
Definition code_unit (c : Z) : Prop := (0 <= c <= 0xFFFF)%Z.

End Wire.

(** * Properties *)

Ltac zdiv := Z.div_mod_to_equations; lia.

Module ProgFacts.
Import Prog.
Section RunLemmas.
Context {Op : Type -> Type} {Exn W : Type} (h : forall X, Op X -> W -> X * W).

Lemma run_bind {A B} (m : prog Op Exn A) (f : A -> prog Op Exn B) w :
  run h (bind m f) w =
  match run h m w with
  | (inr a, w') => run h (f a) w'
  | (inl e, w') => (inl e, w')
  end.
Proof.
  revert w. induction m as [a|e|X op k IH]; intros w; simpl; try reflexivity.
  destruct (h X op w) as [x w']. apply IH.
Qed.

Lemma run_try_catch {A} (m : prog Op Exn A) (c : Exn -> prog Op Exn A) w :
  run h (try_catch m c) w =
  match run h m w with
  | (inr a, w') => (inr a, w')
  | (inl e, w') => run h (c e) w'
  end.
Proof.
  revert w. induction m as [a|e|X op k IH]; intros w; simpl; try reflexivity.
  destruct (h X op w) as [x w']. apply IH.
Qed.
End RunLemmas.
End ProgFacts.
Module ListFacts.
Local Open Scope Z_scope.

Lemma bounded_forall (P : Z -> bool) (n : nat) :
forallb P (map Z.of_nat (seq 0 n)) = true ->
forall v, 0 <= v < Z.of_nat n -> P v = true.
Proof.
intros H v Hv. rewrite forallb_forall in H. apply H.
apply in_map_iff. exists (Z.to_nat v). split; [lia|]. apply in_seq. lia.
Qed.

Lemma list_ind3 {A} (P : list A -> Prop) :
P [] -> (forall a, P [a]) -> (forall a b, P [a; b]) ->
(forall a b c rest, P rest -> P (a :: b :: c :: rest)) ->
forall l, P l.
Proof.
intros H0 H1 H2 H3.
fix IH 1. intros [|a [|b [|c rest]]];
  [exact H0 | apply H1 | apply H2 | apply H3, IH].
Qed.

End ListFacts.

Module Base64Facts.
Import ListFacts Base64 Crypto.
Local Open Scope Z_scope.

Lemma index_char v : sextet v -> index_of (char_of v) = Some v.
Proof.
  intros Hv.
  pose proof (bounded_forall
    (fun v => match index_of (char_of v) with Some i => i =? v | None => false end)
    64 eq_refl v Hv) as H.
  cbv beta in H. destruct (index_of (char_of v)) as [i|]; [|discriminate].
  apply Z.eqb_eq in H. congruence.
Qed.

Lemma char_not_whitespace v : sextet v -> ascii_whitespace (char_of v) = false.
Proof.
  intros Hv. apply negb_true_iff.
  apply (bounded_forall (fun v => negb (ascii_whitespace (char_of v))) 64);
    [vm_compute; reflexivity | exact Hv].
Qed.

Lemma char_not_pad v : sextet v -> (char_of v =? pad) = false.
Proof.
  intros Hv. apply negb_true_iff.
  apply (bounded_forall (fun v => negb (char_of v =? pad)) 64);
    [vm_compute; reflexivity | exact Hv].
Qed.

Lemma encode_split bytes : encode bytes = encode_body bytes ++ padding bytes.
Proof.
  induction bytes as [| a | a b | a b c rest IH] using list_ind3; try reflexivity.
  cbn [encode encode_body padding]. rewrite IH. rewrite <- !app_assoc. reflexivity.
Qed.

Lemma encode_body_chars bytes :
  Forall is_byte bytes -> Forall is_char (encode_body bytes).
Proof.
  induction bytes as [| a | a b | a b c rest IH] using list_ind3; intros Hb.
  - constructor.
  - inversion_clear Hb as [|? ? Ha _]. unfold is_byte in *. cbn [encode_body].
    repeat constructor; eexists; (split; [|reflexivity]); unfold sextet; zdiv.
  - inversion_clear Hb as [|? ? Ha Hb']. inversion_clear Hb' as [|? ? Hb _].
    unfold is_byte in *. cbn [encode_body].
    repeat constructor; eexists; (split; [|reflexivity]); unfold sextet; zdiv.
  - inversion_clear Hb as [|? ? Ha Hb']. inversion_clear Hb' as [|? ? Hb Hc'].
    inversion_clear Hc' as [|? ? Hc Hrest].
    unfold is_byte in *. cbn [encode_body app].
    repeat (constructor; [eexists; (split; [|reflexivity]); unfold sextet; zdiv |]).
    apply IH, Hrest.
Qed.

Lemma body_length bytes :
  exists k, 0 <= k /\
    (Z.of_nat (List.length (encode_body bytes)) = 4 * k /\ padding bytes = []
     \/ Z.of_nat (List.length (encode_body bytes)) = 4 * k + 2 /\ padding bytes = [pad; pad]
     \/ Z.of_nat (List.length (encode_body bytes)) = 4 * k + 3 /\ padding bytes = [pad]).
Proof.
  induction bytes as [| a | a b | a b c rest IH] using list_ind3.
  - exists 0. split; [lia|]. left. split; reflexivity.
  - exists 0. split; [lia|]. right. left. split; reflexivity.
  - exists 0. split; [lia|]. right. right. split; reflexivity.
  - destruct IH as (k & Hk & IH). exists (k + 1). split; [lia|].
    cbn [encode_body padding app List.length].
    destruct IH as [[H1 H2]|[[H1 H2]|[H1 H2]]]; rewrite H2;
      [left | right; left | right; right]; (split; [lia | reflexivity]).
Qed.

Lemma filter_chars (l : jsstring) :
  Forall (fun c => is_char c \/ c = pad) l ->
  List.filter (fun c => negb (ascii_whitespace c)) l = l.
Proof.
  induction 1 as [|c l Hc _ IH]; [reflexivity|].
  cbn [List.filter]. rewrite IH.
  destruct Hc as [(v & Hv & ->)| ->].
  - rewrite char_not_whitespace by exact Hv. reflexivity.
  - reflexivity.
Qed.

Lemma strip_padding_encode bytes :
  Forall is_byte bytes -> strip_padding (encode bytes) = encode_body bytes.
Proof.
  intros Hb. rewrite encode_split.
  pose proof (encode_body_chars bytes Hb) as Hchars.
  destruct (body_length bytes) as (k & Hk & Hlen).
  unfold strip_padding.
  destruct Hlen as [[H1 H2]|[[H1 H2]|[H1 H2]]]; rewrite H2.
  - rewrite app_nil_r.
    destruct (Z.of_nat (List.length (encode_body bytes)) mod 4 =? 0); [|reflexivity].
    destruct (rev (encode_body bytes)) as [|p [|q front]] eqn:Hrev; [reflexivity| |].
    + apply (f_equal (@List.length Z)) in Hrev. rewrite length_rev in Hrev.
      cbn in Hrev. lia.
    + assert (Hp : is_char p).
      { rewrite List.Forall_forall in Hchars. apply Hchars. apply in_rev. rewrite Hrev. left. reflexivity. }
      destruct Hp as (v & Hv & ->). rewrite char_not_pad by exact Hv. reflexivity.
  - rewrite length_app. cbn [List.length].
    replace (Z.of_nat (List.length (encode_body bytes) + 2) mod 4 =? 0) with true
      by (symmetry; apply Z.eqb_eq; zdiv).
    rewrite rev_app_distr. cbn [rev app]. rewrite !Z.eqb_refl.
    apply rev_involutive.
  - rewrite length_app. cbn [List.length].
    replace (Z.of_nat (List.length (encode_body bytes) + 1) mod 4 =? 0) with true
      by (symmetry; apply Z.eqb_eq; zdiv).
    rewrite rev_app_distr. cbn [rev app].
    destruct (rev (encode_body bytes)) as [|q front] eqn:Hrev.
    + apply (f_equal (@List.length Z)) in Hrev. rewrite length_rev in Hrev.
      cbn in Hrev. lia.
    + rewrite Z.eqb_refl.
      assert (Hq : is_char q).
      { rewrite List.Forall_forall in Hchars. apply Hchars. apply in_rev. rewrite Hrev. left. reflexivity. }
      destruct Hq as (v & Hv & ->). rewrite char_not_pad by exact Hv.
      rewrite <- (rev_involutive (encode_body bytes)), Hrev. reflexivity.
Qed.

Lemma decode_loop_body bytes :
  Forall is_byte bytes -> decode_loop (encode_body bytes) 0 0 = bytes.
Proof.
  induction bytes as [| a | a b | a b c rest IH] using list_ind3; intros Hb.
  - reflexivity.
  - inversion_clear Hb as [|? ? Ha _]. unfold is_byte in *.
    cbn [encode_body decode_loop].
    rewrite !index_char by (unfold sextet; zdiv).
    cbn [default]. cbn. f_equal. zdiv.
  - inversion_clear Hb as [|? ? Ha Hb']. inversion_clear Hb' as [|? ? Hb _].
    unfold is_byte in *.
    cbn [encode_body decode_loop].
    rewrite !index_char by (unfold sextet; zdiv).
    cbn [default]. cbn. f_equal; [zdiv|]. f_equal. zdiv.
  - inversion_clear Hb as [|? ? Ha Hb']. inversion_clear Hb' as [|? ? Hb Hc'].
    inversion_clear Hc' as [|? ? Hc Hrest].
    unfold is_byte in *.
    cbn [encode_body decode_loop app].
    rewrite !index_char by (unfold sextet; zdiv).
    cbn [default]. 
    change (0 + 6 =? 24) with false. change (0 + 6 + 6 =? 24) with false.
    change (0 + 6 + 6 + 6 =? 24) with false. change (0 + 6 + 6 + 6 + 6 =? 24) with true.
    cbv iota. rewrite IH by exact Hrest.
    cbn [app]. unfold id.
    set (n := a * 65536 + b * 256 + c).
    replace ((((0 * 64 + n / 262144) * 64 + n / 4096 mod 64) * 64
              + n / 64 mod 64) * 64 + n mod 64) with n by zdiv.
    subst n. f_equal; [zdiv|]. f_equal; [zdiv|]. f_equal. zdiv.
Qed.

Lemma atob_encode bytes :
  Forall is_byte bytes -> atob (encode bytes) = Some bytes.
Proof.
  intros Hb. unfold atob, forgiving_decode.
  pose proof (encode_body_chars bytes Hb) as Hchars.
  rewrite filter_chars.
  2:{ rewrite encode_split. apply Forall_app. split.
      - eapply List.Forall_impl; [|exact Hchars]. intros c Hc. left. exact Hc.
      - destruct (body_length bytes) as (k & _ & [[_ ->]|[[_ ->]|[_ ->]]]);
          repeat (constructor; [right; reflexivity|]); constructor. }
  rewrite strip_padding_encode by exact Hb.
  destruct (body_length bytes) as (k & Hk & Hlen).
  replace (Z.of_nat (List.length (encode_body bytes)) mod 4 =? 1) with false
    by (symmetry; apply Z.eqb_neq; destruct Hlen as [[H1 _]|[[H1 _]|[H1 _]]]; zdiv).
  replace (forallb _ (encode_body bytes)) with true.
  - rewrite decode_loop_body by exact Hb. reflexivity.
  - symmetry. apply List.forallb_forall. intros c Hc.
    rewrite List.Forall_forall in Hchars. destruct (Hchars c Hc) as (v & Hv & ->).
    rewrite index_char by exact Hv. reflexivity.
Qed.

Lemma btoa_bytes bytes : Forall is_byte bytes -> btoa bytes = Some (encode bytes).
Proof.
  intros Hb. unfold btoa.
  replace (forallb _ bytes) with true; [reflexivity|].
  symmetry. apply List.forallb_forall. intros c Hc.
  rewrite List.Forall_forall in Hb. specialize (Hb c Hc). unfold is_byte in Hb.
  apply Z.leb_le. lia.
Qed.

End Base64Facts.
Module BitFacts.
Local Open Scope Z_scope.

Lemma land_low_mul a b n :
  0 <= n -> 0 <= b < 2 ^ n -> Z.land (a * 2 ^ n) b = 0.
Proof.
  intros Hn Hb. apply Z.bits_inj'. intros i Hi.
  rewrite Z.land_spec, Z.bits_0.
  destruct (Z.lt_ge_cases i n) as [Hlt | Hge].
  - rewrite Z.mul_pow2_bits_low by lia. reflexivity.
  - rewrite <- (Z.mod_small b (2 ^ n)) by lia.
    rewrite Z.mod_pow2_bits_high by lia. apply andb_false_r.
Qed.

Lemma lor_mul_add a b n :
  0 <= n -> 0 <= b < 2 ^ n -> Z.lor (a * 2 ^ n) b = a * 2 ^ n + b.
Proof.
  intros Hn Hb. rewrite <- Z.add_lor_land, land_low_mul by assumption. lia.
Qed.

Lemma lor_0x80 v : 0 <= v < 64 -> Z.lor 0x80 v = 128 + v.
Proof. intros Hv. apply (lor_mul_add 2 v 6); lia. Qed.

Lemma lor_shiftl_6 x v : 0 <= v < 64 -> Z.lor (Z.shiftl x 6) v = x * 64 + v.
Proof.
  intros Hv. rewrite Z.shiftl_mul_pow2 by lia. apply (lor_mul_add x v 6); lia.
Qed.

Lemma land_mask x n : 0 <= n -> Z.land x (2 ^ n - 1) = x mod 2 ^ n.
Proof.
  intros Hn. rewrite <- Z.land_ones by exact Hn.
  rewrite Z.ones_equiv, <- Z.sub_1_r. reflexivity.
Qed.

Lemma land_0x3F x : Z.land x 0x3F = x mod 64.
Proof. apply (land_mask x 6). lia. Qed.
Lemma land_0x1F x : Z.land x 0x1F = x mod 32.
Proof. apply (land_mask x 5). lia. Qed.
Lemma land_0xF x : Z.land x 0xF = x mod 16.
Proof. apply (land_mask x 4). lia. Qed.
Lemma land_0x7 x : Z.land x 0x7 = x mod 8.
Proof. apply (land_mask x 3). lia. Qed.
Lemma land_0x3FF x : Z.land x 0x3FF = x mod 1024.
Proof. apply (land_mask x 10). lia. Qed.

Lemma shiftr_div x n : 0 <= n -> Z.shiftr x n = x / 2 ^ n.
Proof. apply Z.shiftr_div_pow2. Qed.

End BitFacts.

Module EncodingFacts.
Import Encoding BitFacts Crypto.
Local Open Scope Z_scope.

Lemma in_range_true lo hi c : lo <= c <= hi -> in_range lo hi c = true.
Proof. intros H. unfold in_range. apply andb_true_iff. split; apply Z.leb_le; lia. Qed.

Lemma in_range_false lo hi c : c < lo \/ hi < c -> in_range lo hi c = false.
Proof.
  intros H. unfold in_range. apply andb_false_iff.
  destruct H; [left | right]; apply Z.leb_gt; lia.
Qed.

Lemma in_range_spec lo hi c : reflect (lo <= c <= hi) (in_range lo hi c).
Proof.
  destruct (in_range lo hi c) eqn:E; constructor; unfold in_range in E.
  - apply andb_true_iff in E. destruct E as [E1 E2].
    apply Z.leb_le in E1, E2. lia.
  - apply andb_false_iff in E. destruct E as [E|E]; apply Z.leb_gt in E; lia.
Qed.

(** The encoder in arithmetic. *)
Lemma utf8_encode_scalar_arith cp :
  0 <= cp ->
  utf8_encode_scalar cp =
    if cp <=? 0x7F then [cp]
    else if cp <=? 0x7FF then [cp / 64 + 192; 128 + cp mod 64]
    else if cp <=? 0xFFFF then
      [cp / 4096 + 224; 128 + cp / 64 mod 64; 128 + cp mod 64]
    else [cp / 262144 + 240; 128 + cp / 4096 mod 64;
          128 + cp / 64 mod 64; 128 + cp mod 64].
Proof.
  intros Hcp. unfold utf8_encode_scalar.
  destruct (in_range_spec 0 0x7F cp) as [H1|H1].
  { rewrite (proj2 (Z.leb_le cp 0x7F)) by lia. reflexivity. }
  rewrite (proj2 (Z.leb_gt cp 0x7F)) by lia.
  assert (Hc : forall n, continuation cp (S n) =
     (128 + cp / 2 ^ (6 * Z.of_nat n) mod 64) :: continuation cp n).
  { intros n. cbn [continuation]. rewrite land_0x3F, shiftr_div by lia.
    rewrite lor_0x80 by zdiv. reflexivity. }
  destruct (in_range_spec 0x80 0x7FF cp) as [H2|H2].
  { rewrite (proj2 (Z.leb_le cp 0x7FF)) by lia.
    rewrite shiftr_div by lia. rewrite !Hc. cbn [continuation].
    change (2 ^ (6 * Z.of_nat 1)) with 64. change (2 ^ (6 * Z.of_nat 0)) with 1.
    rewrite Z.div_1_r. reflexivity. }
  rewrite (proj2 (Z.leb_gt cp 0x7FF)) by lia.
  destruct (in_range_spec 0x800 0xFFFF cp) as [H3|H3].
  { rewrite (proj2 (Z.leb_le cp 0xFFFF)) by lia.
    rewrite shiftr_div by lia. rewrite !Hc. cbn [continuation].
    change (2 ^ (6 * Z.of_nat 2)) with 4096.
    change (2 ^ (6 * Z.of_nat 1)) with 64. change (2 ^ (6 * Z.of_nat 0)) with 1.
    rewrite Z.div_1_r. reflexivity. }
  rewrite (proj2 (Z.leb_gt cp 0xFFFF)) by lia.
  rewrite shiftr_div by lia. rewrite !Hc. cbn [continuation].
  change (2 ^ (6 * Z.of_nat 3)) with 262144.
  change (2 ^ (6 * Z.of_nat 2)) with 4096.
  change (2 ^ (6 * Z.of_nat 1)) with 64. change (2 ^ (6 * Z.of_nat 0)) with 1.
  rewrite Z.div_1_r. reflexivity.
Qed.

Lemma utf8_encode_scalar_bytes cp :
  scalar cp -> Forall is_byte (utf8_encode_scalar cp).
Proof.
  intros [Hcp _]. rewrite utf8_encode_scalar_arith by lia. unfold is_byte.
  destruct (Z.leb_spec cp 0x7F); [repeat constructor; lia|].
  destruct (Z.leb_spec cp 0x7FF); [repeat constructor; zdiv|].
  destruct (Z.leb_spec cp 0xFFFF); repeat constructor; zdiv.
Qed.

(** One continuation byte read in a state that needs more. *)
Lemma utf8_continue st byte rest :
  bytes_needed st <> 0 ->
  lower_boundary st <= byte <= upper_boundary st ->
  0 <= byte ->
  utf8_decode_from st (byte :: rest) =
    let cp := code_point st * 64 + byte mod 64 in
    if bytes_seen st + 1 =? bytes_needed st
    then cp :: utf8_decode_from utf8_initial rest
    else utf8_decode_from (mkUtf8 cp (bytes_seen st + 1) (bytes_needed st) 0x80 0xBF) rest.
Proof.
  intros Hn Hr Hb. cbn [utf8_decode_from].
  rewrite (proj2 (Z.eqb_neq _ _) Hn).
  rewrite in_range_true by exact Hr. cbn [negb].
  rewrite land_0x3F, lor_shiftl_6 by zdiv. reflexivity.
Qed.

Lemma utf8_decode_encode_scalar cp rest :
  scalar cp ->
  utf8_decode_from utf8_initial (utf8_encode_scalar cp ++ rest) =
    cp :: utf8_decode_from utf8_initial rest.
Proof.
  intros [Hcp Hs]. rewrite utf8_encode_scalar_arith by lia.
  destruct (Z.leb_spec cp 0x7F) as [H1|H1].
  { cbn [app utf8_decode_from utf8_initial bytes_needed]. cbn [Z.eqb].
    unfold utf8_lead. rewrite in_range_true by lia. reflexivity. }
  destruct (Z.leb_spec cp 0x7FF) as [H2|H2].
  { cbn [app]. 
    change (utf8_decode_from utf8_initial ((cp / 64 + 192) :: ?l))
      with (let '(out, st') := utf8_lead (cp / 64 + 192) in out ++ utf8_decode_from st' l).
    unfold utf8_lead.
    rewrite (in_range_false 0 0x7F) by zdiv.
    rewrite (in_range_true 0xC2 0xDF) by zdiv.
    rewrite land_0x1F. cbn [app].
    rewrite utf8_continue; cbn [bytes_needed lower_boundary upper_boundary code_point bytes_seen]; try zdiv.
    cbv zeta. change (0 + 1 =? 1) with true. cbv iota. f_equal. zdiv. }
  destruct (Z.leb_spec cp 0xFFFF) as [H3|H3].
  { cbn [app].
    change (utf8_decode_from utf8_initial ((cp / 4096 + 224) :: ?l))
      with (let '(out, st') := utf8_lead (cp / 4096 + 224) in out ++ utf8_decode_from st' l).
    unfold utf8_lead.
    rewrite (in_range_false 0 0x7F) by zdiv.
    rewrite (in_range_false 0xC2 0xDF) by zdiv.
    rewrite (in_range_true 0xE0 0xEF) by zdiv.
    rewrite land_0xF. cbn [app].
    rewrite utf8_continue; cbn [bytes_needed lower_boundary upper_boundary code_point bytes_seen]; try zdiv.
    2:{ destruct (Z.eqb_spec (cp / 4096 + 224) 224);
        destruct (Z.eqb_spec (cp / 4096 + 224) 237); zdiv. }
    cbv zeta. change (0 + 1 =? 2) with false. cbv iota.
    rewrite utf8_continue; cbn [bytes_needed lower_boundary upper_boundary code_point bytes_seen]; try zdiv.
    cbv zeta. change (0 + 1 + 1 =? 2) with true. cbv iota. f_equal. zdiv. }
  cbn [app].
  change (utf8_decode_from utf8_initial ((cp / 262144 + 240) :: ?l))
    with (let '(out, st') := utf8_lead (cp / 262144 + 240) in out ++ utf8_decode_from st' l).
  unfold utf8_lead.
  rewrite (in_range_false 0 0x7F) by zdiv.
  rewrite (in_range_false 0xC2 0xDF) by zdiv.
  rewrite (in_range_false 0xE0 0xEF) by zdiv.
  rewrite (in_range_true 0xF0 0xF4) by zdiv.
  rewrite land_0x7. cbn [app].
  rewrite utf8_continue; cbn [bytes_needed lower_boundary upper_boundary code_point bytes_seen]; try zdiv.
  2:{ destruct (Z.eqb_spec (cp / 262144 + 240) 240);
      destruct (Z.eqb_spec (cp / 262144 + 240) 244); zdiv. }
  cbv zeta. change (0 + 1 =? 3) with false. cbv iota.
  rewrite utf8_continue; cbn [bytes_needed lower_boundary upper_boundary code_point bytes_seen]; try zdiv.
  cbv zeta. change (0 + 1 + 1 =? 3) with false. cbv iota.
  rewrite utf8_continue; cbn [bytes_needed lower_boundary upper_boundary code_point bytes_seen]; try zdiv.
  cbv zeta. change (0 + 1 + 1 + 1 =? 3) with true. cbv iota. f_equal. zdiv.
Qed.

Lemma utf8_decode_encode cps :
  Forall scalar cps ->
  utf8_decode_from utf8_initial (flat_map utf8_encode_scalar cps) = cps.
Proof.
  induction 1 as [|cp cps Hcp _ IH]; [reflexivity|].
  cbn [flat_map]. rewrite utf8_decode_encode_scalar by exact Hcp.
  rewrite IH. reflexivity.
Qed.

Lemma utf8_encode_bytes cps :
  Forall scalar cps -> Forall is_byte (flat_map utf8_encode_scalar cps).
Proof.
  induction 1 as [|cp cps Hcp _ IH]; [constructor|].
  cbn [flat_map]. apply Forall_app. split; [|exact IH].
  apply utf8_encode_scalar_bytes, Hcp.
Qed.

Lemma well_formed_ind (P : jsstring -> Prop) :
  P [] ->
  (forall c rest, 0 <= c <= 0xFFFF -> ~ (0xD800 <= c <= 0xDFFF) ->
     well_formed rest = true -> P rest -> P (c :: rest)) ->
  (forall c d rest, 0xD800 <= c <= 0xDBFF -> 0xDC00 <= d <= 0xDFFF ->
     well_formed rest = true -> P rest -> P (c :: d :: rest)) ->
  forall s, well_formed s = true -> P s.
Proof.
  intros H0 H1 H2. fix IH 1. intros [|c rest]; [intros _; exact H0|].
  cbn [well_formed]. intros H. apply andb_true_iff in H. destruct H as [Hc H].
  destruct (in_range_spec 0 0xFFFF c) as [Hc'|]; [|discriminate].
  unfold is_lead_surrogate, is_trail_surrogate in H.
  destruct (in_range_spec 0xD800 0xDBFF c) as [Hl|Hl].
  - destruct rest as [|d rest']; [discriminate|].
    apply andb_true_iff in H. destruct H as [Hd H].
    destruct (in_range_spec 0xDC00 0xDFFF d) as [Hd'|]; [|discriminate].
    apply H2; [exact Hl | exact Hd' | exact H | apply IH, H].
  - apply andb_true_iff in H. destruct H as [Ht H].
    destruct (in_range_spec 0xDC00 0xDFFF c) as [|Ht']; [discriminate|].
    apply H1; [exact Hc' | lia | exact H | apply IH, H].
Qed.

Lemma to_scalars_single c rest :
  ~ (0xD800 <= c <= 0xDFFF) -> to_scalars (c :: rest) = c :: to_scalars rest.
Proof.
  intros Hc. cbn [to_scalars]. unfold is_lead_surrogate, is_trail_surrogate.
  rewrite !in_range_false by lia. reflexivity.
Qed.

Lemma to_scalars_pair c d rest :
  0xD800 <= c <= 0xDBFF -> 0xDC00 <= d <= 0xDFFF ->
  to_scalars (c :: d :: rest) =
    (0x10000 + (c - 0xD800) * 0x400 + (d - 0xDC00)) :: to_scalars rest.
Proof.
  intros Hc Hd. cbn [to_scalars]. unfold is_lead_surrogate, is_trail_surrogate.
  rewrite !in_range_true by lia. reflexivity.
Qed.

Lemma to_scalars_scalar s : well_formed s = true -> Forall scalar (to_scalars s).
Proof.
  revert s. apply well_formed_ind.
  - constructor.
  - intros c rest Hc Hs _ IH. rewrite to_scalars_single by exact Hs.
    constructor; [|exact IH]. unfold scalar. lia.
  - intros c d rest Hc Hd _ IH. rewrite to_scalars_pair by assumption.
    constructor; [|exact IH]. unfold scalar. lia.
Qed.

Lemma from_to_scalars s : well_formed s = true -> from_scalars (to_scalars s) = s.
Proof.
  revert s. apply well_formed_ind.
  - reflexivity.
  - intros c rest Hc Hs _ IH. rewrite to_scalars_single by exact Hs.
    unfold from_scalars in *. cbn [flat_map]. rewrite IH.
    unfold from_scalar. rewrite (proj2 (Z.ltb_lt c 0x10000)) by lia. reflexivity.
  - intros c d rest Hc Hd _ IH. rewrite to_scalars_pair by assumption.
    unfold from_scalars in *. cbn [flat_map]. rewrite IH.
    unfold from_scalar.
    rewrite (proj2 (Z.ltb_ge _ 0x10000)) by lia.
    rewrite land_0x3FF, shiftr_div by lia. cbn [app].
    f_equal; [zdiv|]. f_equal. zdiv.
Qed.

Lemma strip_bom_to_scalars s :
  hd_error s <> Some BOM -> strip_bom (to_scalars s) = to_scalars s.
Proof.
  destruct s as [|c rest]; [reflexivity|]. cbn [hd_error]. intros Hc.
  cbn [to_scalars]. unfold is_lead_surrogate, is_trail_surrogate, BOM, REPLACEMENT in *.
  destruct (in_range_spec 0xD800 0xDBFF c) as [Hl|Hl].
  - destruct rest as [|d rest']; [reflexivity|].
    destruct (in_range_spec 0xDC00 0xDFFF d) as [Hd|Hd]; cbn [strip_bom]; unfold BOM.
    + rewrite (proj2 (Z.eqb_neq _ _)) by lia. reflexivity.
    + reflexivity.
  - destruct (in_range_spec 0xDC00 0xDFFF c) as [Ht|Ht]; cbn [strip_bom]; unfold BOM.
    + reflexivity.
    + rewrite (proj2 (Z.eqb_neq _ _)) by congruence. reflexivity.
Qed.

Theorem TextDecoder_TextEncoder s :
  well_formed s = true -> hd_error s <> Some BOM ->
  TextDecoder_decode (TextEncoder_encode s) = s.
Proof.
  intros Hwf Hbom. unfold TextDecoder_decode, TextEncoder_encode.
  rewrite utf8_decode_encode by (apply to_scalars_scalar, Hwf).
  rewrite strip_bom_to_scalars by exact Hbom.
  apply from_to_scalars, Hwf.
Qed.

Lemma TextEncoder_bytes s :
  well_formed s = true -> Forall is_byte (TextEncoder_encode s).
Proof. intros Hwf. apply utf8_encode_bytes, to_scalars_scalar, Hwf. Qed.

End EncodingFacts.

Module CryptoFacts.
Import Prog Prog.Notations ProgFacts Base64 Base64Facts Encoding EncodingFacts Crypto.
Local Open Scope Z_scope.

Lemma mod_bytes m (bytes : list Z) :
  256 <= m -> Forall is_byte bytes -> map (fun b => b mod m) bytes = bytes.
Proof.
  intros Hm. induction 1 as [|b bytes Hb _ IH]; [reflexivity|].
  cbn [map]. rewrite IH. unfold is_byte in Hb. rewrite Z.mod_small by lia. reflexivity.
Qed.

Lemma random_values_bytes w n : Forall is_byte (random_values Uint8Array w n).
Proof.
  unfold random_values. apply Forall_map. apply Forall_forall. intros i _.
  unfold is_byte. cbn [element_bytes]. change (2 ^ (8 * 1)) with 256. zdiv.
Qed.

Lemma random_values_length kind w n : List.length (random_values kind w n) = n.
Proof. unfold random_values. rewrite length_map, length_seq. reflexivity. Qed.

Section Platform.
Context (P : Primitives).

(** A typed array of [n] elements, made and filled. *)
Lemma run_fresh_random {A} kind (n : nat) (k : list Z -> M A) w :
  Z.of_nat n <= array_limit P ->
  element_bytes kind * Z.of_nat n <= 65536 ->
  run (handle P)
    (bind (call_throwing (NewTypedArray kind (Z.of_nat n)))
       (fun array => bind (call_throwing (GetRandomValues kind array)) k)) w
  = run (handle P) (k (random_values kind w n)) (after w n).
Proof.
  intros Hmax Hquota. cbn [call_throwing bind run handle].
  rewrite (proj2 (Z.ltb_ge (Z.of_nat n) 0)) by lia.
  rewrite (proj2 (Z.ltb_ge (array_limit P) (Z.of_nat n))) by lia.
  cbn [orb bind run handle]. rewrite repeat_length, Nat2Z.id.
  rewrite (proj2 (Z.ltb_ge 65536 (element_bytes kind * Z.of_nat n))) by lia.
  reflexivity.
Qed.

Lemma exec_arrayBufferToBase64 bytes w :
  Forall is_byte bytes ->
  Z.of_nat (List.length bytes) <= max_arguments P ->
  exec P (arrayBufferToBase64 bytes) w = (inr (encode bytes), w).
Proof.
  intros Hb Hlen. unfold exec, arrayBufferToBase64.
  cbn [call_throwing bind run handle].
  rewrite (proj2 (Z.ltb_ge _ _)) by lia. cbn [bind run].
  rewrite mod_bytes by (lia || exact Hb). rewrite btoa_bytes by exact Hb.
  reflexivity.
Qed.

Lemma exec_arrayBufferToBase64_too_long bytes w :
  max_arguments P < Z.of_nat (List.length bytes) ->
  exec P (arrayBufferToBase64 bytes) w = (inl RangeError, w).
Proof.
  intros Hlen. unfold exec, arrayBufferToBase64.
  cbn [call_throwing bind run handle].
  rewrite (proj2 (Z.ltb_lt _ _)) by lia. reflexivity.
Qed.

Lemma exec_base64ToArrayBuffer_encode bytes w :
  Forall is_byte bytes ->
  exec P (base64ToArrayBuffer (encode bytes)) w = (inr bytes, w).
Proof.
  intros Hb. unfold exec, base64ToArrayBuffer.
  rewrite atob_encode by exact Hb. cbn [or_throw bind run].
  rewrite mod_bytes by (lia || exact Hb). reflexivity.
Qed.

Lemma exec_base64ToArrayBuffer_invalid base64 w :
  atob base64 = None ->
  exec P (base64ToArrayBuffer base64) w = (inl InvalidCharacterError, w).
Proof. intros H. unfold exec, base64ToArrayBuffer. rewrite H. reflexivity. Qed.

Lemma exec_base64ToArrayBuffer_valid base64 binary w :
  atob base64 = Some binary ->
  exec P (base64ToArrayBuffer base64) w = (inr (map (fun c => c mod 256) binary), w).
Proof. intros H. unfold exec, base64ToArrayBuffer. rewrite H. reflexivity. Qed.

Lemma exec_deriveKey password salt w :
  exec P (deriveKey password salt 10000) w = (inr (derived P password salt), w).
Proof. reflexivity. Qed.

(** [encrypt] up to the first [arrayBufferToBase64]. *)
Lemma run_encrypt_sealed plaintext password w :
  16 <= max_typed_array_length P ->
  run (handle P) (encrypt plaintext password) w =
    let salt := random_values Uint8Array w 16 in
    let iv := random_values Uint8Array (after w 16) 12 in
    run (handle P)
      (bind (arrayBufferToBase64
               (aes_gcm_seal P (material (derived P password salt)) iv
                  (TextEncoder_encode plaintext)))
         (fun d => bind (arrayBufferToBase64 iv)
            (fun i => bind (arrayBufferToBase64 salt)
               (fun s => Ret {| data := d; iv := i; salt := s |}))))
      (after (after w 16) 12).
Proof.
  intros Hsmall. unfold encrypt, deriveKey.
  assert (Hlimit : 16 <= array_limit P) by (unfold array_limit; lia).
  change (NewTypedArray Uint8Array 16) with (NewTypedArray Uint8Array (Z.of_nat 16)).
  change (NewTypedArray Uint8Array 12) with (NewTypedArray Uint8Array (Z.of_nat 12)).
  rewrite run_fresh_random by (cbn; lia).
  cbn [call bind run handle].
  rewrite run_fresh_random by (cbn; lia).
  cbn [call_throwing bind run handle]. reflexivity.
Qed.

Lemma exec_encrypt plaintext password w :
  Lawful P ->
  Z.of_nat (List.length (TextEncoder_encode plaintext)) + 16 <= max_arguments P ->
  exec P (encrypt plaintext password) w =
    (inr (envelope P plaintext password w), after (after w 16) 12).
Proof.
  intros HP Hlen. unfold exec.
  rewrite run_encrypt_sealed by apply (small_arrays P HP). cbv zeta.
  rewrite run_bind.
  change (run (handle P) (arrayBufferToBase64 ?b) ?v)
    with (exec P (arrayBufferToBase64 b) v).
  rewrite exec_arrayBufferToBase64
    by (apply (seal_bytes P HP) || (rewrite (seal_length P HP); lia)).
  rewrite run_bind.
  change (run (handle P) (arrayBufferToBase64 ?b) ?v)
    with (exec P (arrayBufferToBase64 b) v).
  rewrite exec_arrayBufferToBase64
    by (apply random_values_bytes || (rewrite random_values_length; lia)).
  rewrite run_bind.
  change (run (handle P) (arrayBufferToBase64 ?b) ?v)
    with (exec P (arrayBufferToBase64 b) v).
  rewrite exec_arrayBufferToBase64
    by (apply random_values_bytes || (rewrite random_values_length; lia)).
  reflexivity.
Qed.

Lemma exec_encrypt_too_long plaintext password w :
  Lawful P ->
  max_arguments P < Z.of_nat (List.length (TextEncoder_encode plaintext)) + 16 ->
  exec P (encrypt plaintext password) w = (inl RangeError, after (after w 16) 12).
Proof.
  intros HP Hlen. unfold exec.
  rewrite run_encrypt_sealed by apply (small_arrays P HP). cbv zeta.
  rewrite run_bind.
  change (run (handle P) (arrayBufferToBase64 ?b) ?v)
    with (exec P (arrayBufferToBase64 b) v).
  rewrite exec_arrayBufferToBase64_too_long
    by (rewrite (seal_length P HP); lia).
  reflexivity.
Qed.

Lemma exec_generateRandomString (n : nat) w :
  Z.of_nat n <= 16384 -> Z.of_nat n <= array_limit P ->
  exec P (generateRandomString (Z.of_nat n)) w =
    (inr (pick_characters (random_values Uint32Array w n) []), after w n).
Proof.
  intros Hquota Hmax. unfold exec, generateRandomString.
  rewrite run_fresh_random by (cbn [element_bytes]; lia). reflexivity.
Qed.

Lemma exec_generateRandomString_quota length w :
  16384 < length <= array_limit P ->
  exec P (generateRandomString length) w = (inl QuotaExceededError, w).
Proof.
  intros Hn. unfold exec, generateRandomString.
  cbn [call_throwing bind run handle].
  rewrite (proj2 (Z.ltb_ge length 0)) by lia.
  rewrite (proj2 (Z.ltb_ge (array_limit P) length)) by lia.
  cbn [orb bind run handle element_bytes]. rewrite repeat_length.
  rewrite (proj2 (Z.ltb_lt _ _)) by lia. reflexivity.
Qed.

Lemma exec_generateRandomString_range length w :
  length < 0 \/ array_limit P < length ->
  exec P (generateRandomString length) w = (inl RangeError, w).
Proof.
  intros Hn. unfold exec, generateRandomString.
  cbn [call_throwing bind run handle].
  destruct Hn as [Hn|Hn].
  - rewrite (proj2 (Z.ltb_lt length 0)) by lia. reflexivity.
  - rewrite (proj2 (Z.ltb_lt (array_limit P) length)) by lia.
    rewrite orb_true_r. reflexivity.
Qed.

(** [decrypt] on an envelope whose three fields decode. *)
Lemma exec_decrypt_decoded envelope password w i s d :
  atob (iv envelope) = Some i ->
  atob (salt envelope) = Some s ->
  atob (data envelope) = Some d ->
  exec P (decrypt envelope password) w =
    (match aes_gcm_open P
             (material (derived P password (map (fun c => c mod 256) s)))
             (map (fun c => c mod 256) i) (map (fun c => c mod 256) d) with
     | Some m => inr (TextDecoder_decode m)
     | None => inl OperationError
     end, w).
Proof.
  intros Hi Hs Hd. unfold exec, decrypt.
  rewrite run_bind.
  change (run (handle P) (base64ToArrayBuffer ?b) ?v)
    with (exec P (base64ToArrayBuffer b) v).
  rewrite (exec_base64ToArrayBuffer_valid _ _ _ Hi).
  rewrite run_bind.
  change (run (handle P) (base64ToArrayBuffer ?b) ?v)
    with (exec P (base64ToArrayBuffer b) v).
  rewrite (exec_base64ToArrayBuffer_valid _ _ _ Hs).
  rewrite run_bind.
  change (run (handle P) (base64ToArrayBuffer ?b) ?v)
    with (exec P (base64ToArrayBuffer b) v).
  rewrite (exec_base64ToArrayBuffer_valid _ _ _ Hd).
  rewrite run_bind.
  change (run (handle P) (deriveKey password ?sl 10000) ?v)
    with (exec P (deriveKey password sl 10000) v).
  rewrite exec_deriveKey.
  cbn [call_throwing bind run handle].
  destruct (aes_gcm_open P _ _ _); reflexivity.
Qed.

Lemma exec_decrypt_envelope (HP : Lawful P) plaintext password w w' :
  Forall is_byte (TextEncoder_encode plaintext) ->
  exec P (decrypt (envelope P plaintext password w) password) w' =
    (inr (TextDecoder_decode (TextEncoder_encode plaintext)), w').
Proof.
  intros Hb.
  rewrite (exec_decrypt_decoded _ _ _
             (random_values Uint8Array (after w 16) 12)
             (random_values Uint8Array w 16)
             (aes_gcm_seal P
                (material (derived P password (random_values Uint8Array w 16)))
                (random_values Uint8Array (after w 16) 12)
                (TextEncoder_encode plaintext))).
  - rewrite !mod_bytes by
      (lia || apply random_values_bytes || apply (seal_bytes P HP)).
    rewrite (open_seal P HP) by exact Hb. reflexivity.
  - apply atob_encode, random_values_bytes.
  - apply atob_encode, random_values_bytes.
  - apply atob_encode, (seal_bytes P HP).
Qed.

End Platform.

Lemma toy_lawful : Lawful Toy.primitives.
Proof.
  split.
  - intros key iv m. cbn [aes_gcm_seal Toy.primitives]. unfold Toy.seal, Toy.tag.
    apply Forall_app. split.
    + apply Forall_map. apply Forall_forall. intros b _. unfold is_byte. zdiv.
    + apply Forall_forall. intros b Hb. apply list_elem_of_In, repeat_spec in Hb.
      subst b. unfold is_byte, Toy.stream. zdiv.
  - intros key iv m. cbn [aes_gcm_seal Toy.primitives]. unfold Toy.seal, Toy.tag.
    rewrite length_app, length_map, repeat_length. reflexivity.
  - intros key iv m Hm. cbn [aes_gcm_seal aes_gcm_open Toy.primitives].
    unfold Toy.open, Toy.seal.
    set (k := Toy.stream key iv).
    set (c := map (fun b => (b + k) mod 256) m).
    assert (Hlen : (List.length (c ++ Toy.tag key iv) - 16)%nat = List.length c).
    { rewrite length_app. unfold Toy.tag. rewrite repeat_length. lia. }
    rewrite Hlen.
    rewrite skipn_app, skipn_all, Nat.sub_diag. cbn [skipn app].
    rewrite firstn_app, firstn_all, Nat.sub_diag. cbn [firstn]. rewrite app_nil_r.
    rewrite bool_decide_eq_true_2.
    2:{ split; [reflexivity|]. rewrite length_app. unfold Toy.tag.
        rewrite repeat_length. lia. }
    f_equal. subst c. rewrite map_map.
    assert (Hk : 0 <= k < 256) by (unfold k, Toy.stream; zdiv).
    clear Hlen. induction Hm as [|b m Hb _ IH]; [reflexivity|].
    cbn [map]. rewrite IH. f_equal. unfold is_byte in Hb. zdiv.
  - cbn. lia.
Qed.

End CryptoFacts.

Module ModelFacts.
Import Prog Prog.Notations ProgFacts Model.

Lemma quiet_ret {A} (a : A) : quiet (Ret a).
Proof. intros w. exists a, w. split; reflexivity. Qed.

Lemma quiet_bind {A B} (m : M A) (f : A -> M B) :
  quiet m -> (forall a, quiet (f a)) -> quiet (bind m f).
Proof.
  intros Hm Hf w. destruct (Hm w) as (a & w1 & E1 & D1).
  destruct (Hf a w1) as (b & w2 & E2 & D2).
  exists b, w2. unfold exec in *. rewrite run_bind, E1, E2.
  split; [reflexivity | congruence].
Qed.

Lemma quiet_randomInt max : quiet (call (RandomInt max)).
Proof. intros w. eexists _, _. split; reflexivity. Qed.

Lemma quiet_console entry : quiet (call (Console entry)).
Proof. intros w. eexists _, _. split; reflexivity. Qed.

Lemma quiet_findMany candidates : quiet (call (FindManyStubIn candidates)).
Proof. intros w. eexists _, _. split; reflexivity. Qed.

Lemma quiet_randomCandidate n : quiet (randomCandidate n).
Proof.
  induction n as [|n IH]; cbn [randomCandidate]; [apply quiet_ret|].
  apply quiet_bind; [apply quiet_randomInt|]. intros r.
  apply quiet_bind; [exact IH|]. intros rest. apply quiet_ret.
Qed.

Lemma quiet_randomCandidates b n : quiet (randomCandidates b n).
Proof.
  induction b as [|b IH]; cbn [randomCandidates]; [apply quiet_ret|].
  apply quiet_bind; [apply quiet_randomCandidate|]. intros c.
  apply quiet_bind; [exact IH|]. intros rest. apply quiet_ret.
Qed.

Lemma quiet_generateUniqueStub_from retry remaining retries b n :
  quiet (generateUniqueStub_from retry remaining retries b n).
Proof.
  revert retry. induction remaining as [|r IH]; intros retry;
    cbn [generateUniqueStub_from].
  - apply quiet_bind; [apply quiet_console|]. intros _. apply quiet_ret.
  - apply quiet_bind; [apply quiet_randomCandidates|]. intros candidates.
    apply quiet_bind; [apply quiet_findMany|]. intros stubs.
    destruct (firstUntaken _ candidates); [apply quiet_ret|].
    apply quiet_bind; [apply quiet_console|]. intros _. apply IH.
Qed.

Lemma quiet_generateUniqueStub b r n : quiet (generateUniqueStub b r n).
Proof. apply quiet_generateUniqueStub_from. Qed.

Lemma exec_validateMessage data w :
  exec (validateMessage data) w =
    (if some_nonempty (validation_errors (db w) data)
     then inl (ModelValidationError (validation_errors (db w) data) "Message")
     else inr tt, w).
Proof.
  unfold exec, validateMessage, validation_errors. cbn [call bind run handle].
  match goal with |- context [some_nonempty ?e] => destruct (some_nonempty e) end;
    reflexivity.
Qed.

Lemma validation_errors_rules d data :
  validation_errors d data =
    {| err_content := map message (List.filter (violated d data) content_rules);
       err_stub := map message (List.filter (violated d data) stub_rules) |}.
Proof.
  unfold validation_errors, content_rules, stub_rules. cbn [List.filter violated].
  generalize (bool_decide (content data = [])) as b1.
  generalize (10000 <? JS.length (content data))%Z as b2.
  generalize (bool_decide (stub data = [])) as b3.
  generalize ((JS.length (stub data) <? 8) || (32 <? JS.length (stub data)))%Z as b4.
  generalize (bool_decide (is_Some (d !! stub data))) as b5.
  generalize (matches_non_alphanumeric (stub data)) as b6.
  intros [] [] [] [] [] []; reflexivity.
Qed.

Lemma some_nonempty_iff d data :
  some_nonempty (validation_errors d data) = true <->
  exists r, violated d data r = true.
Proof.
  rewrite validation_errors_rules. unfold some_nonempty, content_rules, stub_rules.
  cbn [List.filter err_content err_stub existsb].
  split.
  - intros H.
    destruct (violated d data ContentRequired) eqn:E1; [exists ContentRequired; exact E1|].
    destruct (violated d data ContentTooLong) eqn:E2; [exists ContentTooLong; exact E2|].
    destruct (violated d data StubRequired) eqn:E3; [exists StubRequired; exact E3|].
    destruct (violated d data StubLength) eqn:E4; [exists StubLength; exact E4|].
    destruct (violated d data StubUnique) eqn:E5; [exists StubUnique; exact E5|].
    destruct (violated d data StubAlphanumeric) eqn:E6; [exists StubAlphanumeric; exact E6|].
    discriminate H.
  - intros [r Hr].
    destruct r; rewrite Hr;
      repeat match goal with |- context [if ?b then _ else _] => is_var b; destruct b
             | |- context [if violated ?d ?x ?r then _ else _] => destruct (violated d x r) end;
      reflexivity.
Qed.

(** [createMessage] after its allocation. *)
Lemma exec_create_after (gen : M (option jsstring)) content w generated w1 :
  exec gen w = (inr generated, w1) -> db w1 = db w ->
  let row := {| Model.content := content; readAt := None;
                stub := JS.or_empty generated |} in
  exec (bind gen (fun generated =>
          let stub := JS.or_empty generated in
          bind (validateMessage {| Model.content := content; readAt := None; stub := stub |})
               (fun _ => call_throwing (Create content stub)))) w =
    if some_nonempty (validation_errors (db w) row)
    then (inl (ModelValidationError (validation_errors (db w) row) "Message"), w1)
    else (inr row, with_db w1 (<[stub row := row]> (db w))).
Proof.
  intros E D row. unfold exec in *. rewrite run_bind, E. cbv zeta.
  rewrite run_bind. fold row.
  change (run handle (validateMessage row) w1) with (exec (validateMessage row) w1).
  rewrite exec_validateMessage, D.
  destruct (some_nonempty (validation_errors (db w) row)) eqn:Hv; [reflexivity|].
  cbn [call_throwing run handle]. rewrite D.
  destruct (db w !! JS.or_empty generated) as [existing|] eqn:Hfound.
  - exfalso. apply not_true_iff_false in Hv. apply Hv.
    apply some_nonempty_iff. exists StubUnique. cbn [violated stub row].
    rewrite Hfound. reflexivity.
  - reflexivity.
Qed.

(** What [createMessage] does, given what the allocation returned. *)
Lemma exec_createMessage content w :
  exists generated w1,
    exec (generateUniqueStub 5 3 8) w = (inr generated, w1) /\ db w1 = db w /\
    let row := {| Model.content := content; readAt := None;
                  stub := JS.or_empty generated |} in
    exec (createMessage content) w =
      if some_nonempty (validation_errors (db w) row)
      then (inl (ModelValidationError (validation_errors (db w) row) "Message"), w1)
      else (inr row, with_db w1 (<[stub row := row]> (db w))).
Proof.
  destruct (quiet_generateUniqueStub 5 3 8 w) as (generated & w1 & E & D).
  exists generated, w1. split; [exact E|]. split; [exact D|].
  exact (exec_create_after (generateUniqueStub 5 3 8) content w generated w1 E D).
Qed.

End ModelFacts.

(** ** The envelope scheme *)

Module Envelope.
Import Prog Prog.Notations ProgFacts Base64 Base64Facts Encoding EncodingFacts.
Import Crypto CryptoFacts Fixture.
Local Open Scope Z_scope.

(** C1, as the code has it: for a plaintext that is well-formed UTF-16,
    does not begin with U+FEFF, and whose ciphertext (its UTF-8 bytes and
    the 16 bytes of the tag) is no longer than the number of arguments the
    engine accepts in one call, and for every password and every state of
    the random generator, [encrypt] resolves to an envelope and [decrypt] of
    that envelope with the same password resolves to the plaintext. *)
Theorem decrypt_encrypt_round_trip P plaintext password w :
  Lawful P ->
  well_formed plaintext = true ->
  hd_error plaintext <> Some BOM ->
  Z.of_nat (List.length (TextEncoder_encode plaintext)) + 16 <= max_arguments P ->
  exists envelope,
    fst (exec P (encrypt plaintext password) w) = inr envelope /\
    forall w', fst (exec P (decrypt envelope password) w') = inr plaintext.
Proof.
  intros HP Hwf Hbom Hlen. exists (envelope P plaintext password w). split.
  - rewrite exec_encrypt by assumption. reflexivity.
  - intros w'.
    rewrite exec_decrypt_envelope by (exact HP || apply TextEncoder_bytes, Hwf).
    cbn [fst]. rewrite TextDecoder_TextEncoder by assumption. reflexivity.
Qed.

Lemma decrypt_encrypt_round_trip_witness :
  exists envelope,
    fst (exec Toy.primitives (encrypt hello pw) browser) = inr envelope /\
    forall w', fst (exec Toy.primitives (decrypt envelope pw) w') = inr hello.
Proof.
  apply (decrypt_encrypt_round_trip Toy.primitives hello pw browser).
  - exact toy_lawful.
  - reflexivity.
  - vm_compute. discriminate.
  - vm_compute. discriminate.
Defined.

(** C1 as stated fails: a plaintext that begins with U+FEFF comes back
    without it, because [new TextDecoder()] drops a leading byte order
    mark. *)
Lemma round_trip_drops_leading_bom :
  exists envelope,
    fst (exec Toy.primitives (encrypt bom_hi pw) browser) = inr envelope /\
    fst (exec Toy.primitives (decrypt envelope pw) browser) = inr (JS.lit "hi") /\
    JS.lit "hi" <> bom_hi.
Proof.
  eexists. split; [vm_compute; reflexivity|].
  split; [vm_compute; reflexivity|]. vm_compute. discriminate.
Qed.

(** C4, as the code has it: when [atob] refuses one of the three fields,
    [decrypt] rejects with the [InvalidCharacterError] of [atob] and has
    made no call into [window.crypto]. *)
Theorem decrypt_invalid_base64 P envelope password w :
  atob (iv envelope) = None \/ atob (salt envelope) = None
  \/ atob (data envelope) = None ->
  exec P (decrypt envelope password) w = (inl InvalidCharacterError, w) /\
  calls P (decrypt envelope password) w = [].
Proof.
  intros H. unfold exec, calls, decrypt, base64ToArrayBuffer.
  destruct (atob (iv envelope)) as [i|]; [|split; reflexivity].
  destruct (atob (salt envelope)) as [s|]; [|split; reflexivity].
  destruct (atob (data envelope)) as [d|]; [|split; reflexivity].
  exfalso. destruct H as [H|[H|H]]; discriminate H.
Qed.

Lemma decrypt_invalid_base64_witness :
  let envelope := {| data := JS.lit "AAAA"; iv := JS.lit "AAAA"; salt := JS.lit "AAA*" |} in
  exec Toy.primitives (decrypt envelope pw) browser = (inl InvalidCharacterError, browser) /\
  calls Toy.primitives (decrypt envelope pw) browser = [].
Proof.
  apply (decrypt_invalid_base64 Toy.primitives
           {| data := JS.lit "AAAA"; iv := JS.lit "AAAA"; salt := JS.lit "AAA*" |}
           pw browser).
  right. left. reflexivity.
Defined.

(** C4 as stated fails on the lengths: an iv and a salt of three bytes are
    not refused; they are handed to the key derivation and to AES-GCM, and
    the failure is the [OperationError] of the cipher. *)
Lemma short_iv_and_salt_reach_the_cipher :
  let envelope := {| data := []; iv := JS.lit "AAAA"; salt := JS.lit "AAAA" |} in
  let baseKey := {| algorithm := "PBKDF2"; material := TextEncoder_encode pw |} in
  calls Toy.primitives (decrypt envelope pw) browser =
    [existT _ (ImportKey "raw" (TextEncoder_encode pw) "PBKDF2");
     existT _ (DeriveKey [0; 0; 0] 10000 "SHA-256" baseKey "AES-GCM" 256);
     existT _ (Decrypt [0; 0; 0] (derived Toy.primitives pw [0; 0; 0]) [])] /\
  fst (exec Toy.primitives (decrypt envelope pw) browser) = inl OperationError.
Proof. split; vm_compute; reflexivity. Qed.

End Envelope.

(** ** Creation *)

Module Creation.
Import Prog Prog.Notations ProgFacts Model ModelFacts Route Fixture.

Lemma exec_POST_after (create : M Message) w :
  exec (try_catch
          (bind create (fun message => Ret (json (StubBody (stub message)) 200)))
          (fun error =>
             bind (call (Console (ErrorCaught error)))
               (fun _ =>
                  match error with
                  | ModelValidationError errors _ => Ret (json (ErrorsBody errors) 422)
                  | _ => Ret unexpected
                  end))) w =
    match exec create w with
    | (inr message, w') => (inr (json (StubBody (stub message)) 200), w')
    | (inl error, w') =>
        (inr match error with
             | ModelValidationError errors _ => json (ErrorsBody errors) 422
             | _ => unexpected
             end,
         {| db := db w'; entropy := entropy w'; drawn := drawn w';
            clock := clock w'; console := console w' ++ [ErrorCaught error] |})
    end.
Proof.
  unfold exec. rewrite run_try_catch, run_bind.
  destruct (run handle create w) as [[error|message] w']; [|reflexivity].
  cbn [call bind run handle]. destruct error; reflexivity.
Qed.

Lemma exec_POST request_text w :
  exec (POST request_text) w =
    match exec (createMessage request_text) w with
    | (inr message, w') => (inr (json (StubBody (stub message)) 200), w')
    | (inl error, w') =>
        (inr match error with
             | ModelValidationError errors _ => json (ErrorsBody errors) 422
             | _ => unexpected
             end,
         {| db := db w'; entropy := entropy w'; drawn := drawn w';
            clock := clock w'; console := console w' ++ [ErrorCaught error] |})
    end.
Proof. exact (exec_POST_after (createMessage request_text) w). Qed.

(** C6, as the code has it: when the allocation returns [null],
    [createMessage] goes on with the empty stub, and the request is answered
    422 with the validation messages of the stub field; no row is written. *)
Theorem exhaustion_is_a_validation_error content w :
  fst (exec (generateUniqueStub 5 3 8) w) = inr None ->
  exists errors,
    fst (exec (createMessage content) w) = inl (ModelValidationError errors "Message") /\
    fst (exec (POST content) w) = inr (json (ErrorsBody errors) 422) /\
    err_stub errors =
      ["Stub is required"; "Stub must be between 8 and 32 characters"]
      ++ (if bool_decide (is_Some (db w !! [])) then ["Stub must be unique"] else []) /\
    db (snd (exec (POST content) w)) = db w.
Proof.
  intros Hnone.
  destruct (exec_createMessage content w) as (generated & w1 & E & D & Hc).
  rewrite E in Hnone. cbn [fst] in Hnone. injection Hnone as ->.
  cbv zeta in Hc. cbn [JS.or_empty] in Hc.
  set (row := {| content := content; readAt := None; stub := [] |}) in *.
  assert (Hv : some_nonempty (validation_errors (db w) row) = true).
  { apply some_nonempty_iff. exists StubRequired. reflexivity. }
  rewrite Hv in Hc.
  exists (validation_errors (db w) row).
  rewrite exec_POST, Hc. cbn [fst snd db].
  split; [reflexivity|]. split; [reflexivity|]. split; [|exact D].
  rewrite validation_errors_rules. cbn [err_stub]. unfold stub_rules.
  cbn [List.filter violated stub row JS.length List.length matches_non_alphanumeric existsb].
  rewrite bool_decide_eq_true_2 by reflexivity.
  change ((Z.of_nat 0 <? 8)%Z || (32 <? Z.of_nat 0)%Z) with true.
  destruct (bool_decide (is_Some (db w !! []))); reflexivity.
Qed.

Lemma exhaustion_is_a_validation_error_witness :
  exists errors,
    fst (exec (createMessage hello) taken) = inl (ModelValidationError errors "Message") /\
    fst (exec (POST hello) taken) = inr (json (ErrorsBody errors) 422) /\
    err_stub errors =
      ["Stub is required"; "Stub must be between 8 and 32 characters"]
      ++ (if bool_decide (is_Some (db taken !! [])) then ["Stub must be unique"] else []) /\
    db (snd (exec (POST hello) taken)) = db taken.
Proof.
  apply (exhaustion_is_a_validation_error hello taken).
  vm_compute. reflexivity.
Defined.

(** C6 as stated fails: with every candidate taken, the request is not
    answered with the generic server error; it is answered 422 with
    messages on the stub field. *)
Lemma exhaustion_answers_422 :
  fst (exec (generateUniqueStub 5 3 8) taken) = inr None /\
  fst (exec (POST hello) taken) =
    inr (json (ErrorsBody
                 {| err_content := [];
                    err_stub := ["Stub is required";
                                 "Stub must be between 8 and 32 characters"] |}) 422) /\
  fst (exec (POST hello) taken) <> inr unexpected.
Proof.
  split; [vm_compute; reflexivity|].
  split; [vm_compute; reflexivity|]. vm_compute. discriminate.
Qed.

Lemma rejected_by_content_rule w data r :
  In r content_rules -> violated (db w) data r = true ->
  rejected_with w data err_content (message r).
Proof.
  intros Hin Hr.
  assert (Hv : some_nonempty (validation_errors (db w) data) = true)
    by (apply some_nonempty_iff; exists r; exact Hr).
  exists (validation_errors (db w) data).
  rewrite exec_validateMessage, Hv. split; [reflexivity|].
  rewrite validation_errors_rules. cbn [err_content].
  apply in_map, filter_In. split; assumption.
Qed.

Lemma rejected_by_stub_rule w data r :
  In r stub_rules -> violated (db w) data r = true ->
  rejected_with w data err_stub (message r).
Proof.
  intros Hin Hr.
  assert (Hv : some_nonempty (validation_errors (db w) data) = true)
    by (apply some_nonempty_iff; exists r; exact Hr).
  exists (validation_errors (db w) data).
  rewrite exec_validateMessage, Hv. split; [reflexivity|].
  rewrite validation_errors_rules. cbn [err_stub].
  apply in_map, filter_In. split; assumption.
Qed.

Lemma accepted_iff w data :
  accepted w data <-> forall r, violated (db w) data r = false.
Proof.
  unfold accepted. rewrite exec_validateMessage. cbn [fst].
  destruct (some_nonempty (validation_errors (db w) data)) eqn:Hv.
  - apply some_nonempty_iff in Hv. destruct Hv as [r Hr].
    split; [discriminate|]. intros H. rewrite H in Hr. discriminate.
  - split; [|reflexivity]. intros _ r.
    destruct (violated (db w) data r) eqn:Hr; [|reflexivity].
    assert (some_nonempty (validation_errors (db w) data) = true)
      by (apply some_nonempty_iff; exists r; exact Hr).
    congruence.
Qed.

Lemma matches_non_alphanumeric_iff s :
  matches_non_alphanumeric s = true <-> exists c, In c s /\ alphanumeric c = false.
Proof.
  unfold matches_non_alphanumeric. rewrite existsb_exists.
  split; intros (c & Hc & H); exists c; (split; [exact Hc|]).
  - apply negb_true_iff, H.
  - apply negb_true_iff, H.
Qed.

(** C7: the boundaries of [validateMessage].  Empty content is rejected;
    content of 10000 units never has a content message and is accepted with
    a stub that passes; content of 10001 units is rejected; a stub of 7 or
    of 33 units is rejected; a stub with a unit outside [a-zA-Z0-9] is
    rejected. *)
Theorem validation_boundaries w data :
  (JS.length (content data) = 0%Z ->
     rejected_with w data err_content "Content is required") /\
  (JS.length (content data) = 10000%Z ->
     (forall r, In r content_rules -> violated (db w) data r = false) /\
     ((forall r, In r stub_rules -> violated (db w) data r = false) ->
      accepted w data)) /\
  (JS.length (content data) = 10001%Z ->
     rejected_with w data err_content "Content is too long") /\
  (JS.length (stub data) = 7%Z \/ JS.length (stub data) = 33%Z ->
     rejected_with w data err_stub "Stub must be between 8 and 32 characters") /\
  ((exists c, In c (stub data) /\ alphanumeric c = false) ->
     rejected_with w data err_stub "Stub must be alphanumeric").
Proof.
  split; [|split; [|split; [|split]]].
  - intros H. apply (rejected_by_content_rule w data ContentRequired); [left; reflexivity|].
    cbn [violated]. apply bool_decide_eq_true_2.
    unfold JS.length in H. destruct (content data); [reflexivity|cbn in H; lia].
  - intros H.
    assert (Hc : forall r, In r content_rules -> violated (db w) data r = false).
    { intros r [<-|[<-|[]]]; cbn [violated].
      - apply bool_decide_eq_false_2. intros E. rewrite E in H. discriminate H.
      - rewrite H. reflexivity. }
    split; [exact Hc|]. intros Hs. apply accepted_iff. intros r.
    destruct r; [apply Hc | apply Hc | apply Hs | apply Hs | apply Hs | apply Hs];
      cbn; auto 6.
  - intros H. apply (rejected_by_content_rule w data ContentTooLong);
      [right; left; reflexivity|].
    cbn [violated]. rewrite H. reflexivity.
  - intros H. apply (rejected_by_stub_rule w data StubLength);
      [right; left; reflexivity|].
    cbn [violated]. destruct H as [-> | ->]; reflexivity.
  - intros H. apply (rejected_by_stub_rule w data StubAlphanumeric);
      [right; right; right; left; reflexivity|].
    cbn [violated]. apply matches_non_alphanumeric_iff, H.
Qed.

Lemma validation_boundaries_witness :
  rejected_with empty (mkMessage [] None abcdefgh) err_content "Content is required" /\
  accepted empty (mkMessage (letters 10000) None abcdefgh) /\
  rejected_with empty (mkMessage (letters 10001) None abcdefgh)
    err_content "Content is too long" /\
  rejected_with empty (mkMessage hello None (letters 7))
    err_stub "Stub must be between 8 and 32 characters" /\
  rejected_with empty (mkMessage hello None (letters 33))
    err_stub "Stub must be between 8 and 32 characters" /\
  rejected_with empty (mkMessage hello None (JS.lit "abcd-fgh"))
    err_stub "Stub must be alphanumeric".
Proof.
  split.
  { apply (proj1 (validation_boundaries empty (mkMessage [] None abcdefgh))).
    reflexivity. }
  split.
  { apply (proj1 (proj2 (validation_boundaries empty
                           (mkMessage (letters 10000) None abcdefgh)))).
    - vm_compute. reflexivity.
    - intros r [<-|[<-|[<-|[<-|[]]]]]; vm_compute; reflexivity. }
  split.
  { apply (proj1 (proj2 (proj2 (validation_boundaries empty
                                   (mkMessage (letters 10001) None abcdefgh))))).
    vm_compute. reflexivity. }
  split.
  { apply (proj1 (proj2 (proj2 (proj2 (validation_boundaries empty
                                           (mkMessage hello None (letters 7))))))).
    left. reflexivity. }
  split.
  { apply (proj1 (proj2 (proj2 (proj2 (validation_boundaries empty
                                           (mkMessage hello None (letters 33))))))).
    right. reflexivity. }
  apply (proj2 (proj2 (proj2 (proj2 (validation_boundaries empty
                                       (mkMessage hello None (JS.lit "abcd-fgh"))))))).
  exists 45%Z. split; [vm_compute; tauto | reflexivity].
Defined.


(** C10: when the creation route answers 200 with a stub, the row stored
    under that stub has the request text, whole and unchanged, as its
    content, and is unread. *)
Theorem POST_stores_the_request_text request_text w s w' :
  exec (POST request_text) w = (inr (json (StubBody s) 200), w') ->
  db w' !! s = Some {| content := request_text; readAt := None; stub := s |}.
Proof.
  rewrite exec_POST.
  destruct (exec_createMessage request_text w) as (generated & w1 & E & D & Hc).
  cbv zeta in Hc. rewrite Hc.
  destruct (some_nonempty _).
  - intros H. discriminate H.
  - intros H. injection H as <- <-. cbn [stub db with_db].
    apply lookup_insert_eq.
Qed.

Lemma POST_stores_the_request_text_witness :
  db (snd (exec (POST hello) empty)) !! JS.lit "AAAAAAAA"
  = Some {| content := hello; readAt := None; stub := JS.lit "AAAAAAAA" |}.
Proof.
  apply (POST_stores_the_request_text hello empty (JS.lit "AAAAAAAA")
           (snd (exec (POST hello) empty))).
  vm_compute. reflexivity.
Defined.

End Creation.

(** ** The read-once record *)

Module ReadOnce.
Import Prog Prog.Notations ProgFacts Model ModelFacts Route Concurrent Fixture.

(** C9: [markMessageAsRead] returns [null] both when no row has the stub
    and when the row is already read, and in both cases the world after the
    call is the world before it. *)
Theorem markMessageAsRead_null_without_write w s :
  (db w !! s = None \/ exists m t, db w !! s = Some m /\ readAt m = Some t) ->
  exec (markMessageAsRead s) w = (inr None, w).
Proof.
  intros [H | (m & t & H & Ht)]; unfold exec, markMessageAsRead;
    cbn [call bind run handle]; rewrite H.
  - reflexivity.
  - rewrite Ht. reflexivity.
Qed.

Lemma markMessageAsRead_null_without_write_witness :
  exec (markMessageAsRead abcdefgh) consumed = (inr None, consumed) /\
  exec (markMessageAsRead abcdefgh) empty = (inr None, empty).
Proof.
  split.
  - apply (markMessageAsRead_null_without_write consumed abcdefgh).
    right. exists (mkMessage SENTINEL (Some 900%Z) abcdefgh), 900%Z.
    split; reflexivity.
  - apply (markMessageAsRead_null_without_write empty abcdefgh).
    left. reflexivity.
Defined.

(** C2 fails on the code: two overlapping retrievals of one unread message
    both answer with the original content and a null [readAt].  Each request
    reads the row before the other has marked it. *)
Theorem overlapping_GETs_both_receive_the_content :
  let st := interleave [Resume 0; Resume 1; Resume 0; Resume 0; Resume 1]
              ([GET abcdefgh; GET abcdefgh], pending) in
  returned st 0 = Some (json (MessageBody secret None) 200) /\
  returned st 1 = Some (json (MessageBody secret None) 200) /\
  db (snd st) !! abcdefgh = Some (mkMessage SENTINEL (Some 1000%Z) abcdefgh).
Proof. vm_compute. repeat split; reflexivity. Qed.

(** C3 fails on the code: of two overlapping calls of [markMessageAsRead]
    that both found the row unread, the second writes again after the first
    has consumed the row, and [readAt] changes from 1000 to 1005; both calls
    return the row, none returns [null]. *)
Theorem overlapping_marks_write_readAt_twice :
  let st0 : State (option Message) :=
    ([markMessageAsRead abcdefgh; markMessageAsRead abcdefgh], pending) in
  let st1 := interleave [Resume 0; Resume 1; Resume 0] st0 in
  let st2 := interleave [Advance 5; Resume 1] st1 in
  db (snd st1) !! abcdefgh = Some (mkMessage SENTINEL (Some 1000%Z) abcdefgh) /\
  db (snd st2) !! abcdefgh = Some (mkMessage SENTINEL (Some 1005%Z) abcdefgh) /\
  returned st2 0 = Some (Some (mkMessage SENTINEL (Some 1000%Z) abcdefgh)) /\
  returned st2 1 = Some (Some (mkMessage SENTINEL (Some 1005%Z) abcdefgh)).
Proof. vm_compute. repeat split; reflexivity. Qed.

End ReadOnce.

(** ** Allocation of stubs *)

Module Allocation.
Import Prog Prog.Notations ProgFacts Model ModelFacts Fixture.

Lemma characters_alphanumeric r :
  r < List.length characters ->
  exists c, nth_error characters r = Some c /\ alphanumeric c = true.
Proof.
  intros Hr.
  assert (H : forallb (fun r => match nth_error characters r with
                                | Some c => alphanumeric c
                                | None => false
                                end) (seq 0 (List.length characters)) = true)
    by (vm_compute; reflexivity).
  rewrite forallb_forall in H. specialize (H r).
  destruct (nth_error characters r) as [c|].
  - exists c. split; [reflexivity|]. apply H, in_seq. lia.
  - discriminate H. apply in_seq. lia.
Qed.

(** The world after [n] draws of the generator. *)
Lemma exec_randomCandidate n w :
  exists c,
    exec (randomCandidate n) w
      = (inr c, {| db := db w; entropy := entropy w; drawn := drawn w + n;
                   clock := clock w; console := console w |}) /\
    List.length c = n /\ Forall (fun u => alphanumeric u = true) c.
Proof.
  revert w. induction n as [|n IH]; intros w.
  - exists []. cbn [randomCandidate exec run].
    rewrite Nat.add_0_r. destruct w. split; [reflexivity|]. split; [reflexivity|constructor].
  - cbn [randomCandidate]. unfold exec. cbn [call bind run handle].
    set (w1 := {| db := db w; entropy := entropy w; drawn := S (drawn w);
                  clock := clock w; console := console w |}).
    rewrite run_bind.
    destruct (IH w1) as (rest & E & Hlen & Hal). unfold exec in E. rewrite E.
    cbn [run].
    destruct (characters_alphanumeric (entropy w (drawn w) mod List.length characters))
      as (c & Hc & Hcal).
    { apply Nat.mod_upper_bound. vm_compute. discriminate. }
    unfold JS.at_joined. rewrite Hc.
    exists (c :: rest). cbn [app]. split.
    + f_equal. subst w1. cbn [db entropy drawn clock console]. f_equal. lia.
    + split; [cbn; lia|]. constructor; assumption.
Qed.

Lemma exec_randomCandidates b n w :
  exists cs,
    exec (randomCandidates b n) w
      = (inr cs, {| db := db w; entropy := entropy w; drawn := drawn w + b * n;
                    clock := clock w; console := console w |}) /\
    List.length cs = b /\
    Forall (fun c => List.length c = n /\ Forall (fun u => alphanumeric u = true) c) cs.
Proof.
  revert w. induction b as [|b IH]; intros w.
  - exists []. cbn [randomCandidates exec run]. rewrite Nat.add_0_r. destruct w.
    split; [reflexivity|]. split; [reflexivity|constructor].
  - cbn [randomCandidates]. unfold exec. rewrite run_bind.
    destruct (exec_randomCandidate n w) as (c & E & Hlen & Hal).
    unfold exec in E. rewrite E. rewrite run_bind.
    match goal with |- context [run handle (randomCandidates b n) ?w1] =>
      destruct (IH w1) as (cs & E' & Hlen' & Hal') end.
    unfold exec in E'. rewrite E'. cbn [run db entropy drawn clock console].
    exists (c :: cs). split.
    + f_equal. f_equal. lia.
    + split; [cbn; lia|]. constructor; [split; assumption | assumption].
Qed.

Lemma firstUntaken_free (d : gmap jsstring Message) candidates c :
  firstUntaken
    (list_to_set (List.filter (fun c => bool_decide (is_Some (d !! c)))
                    (remove_dups candidates))) candidates = Some c ->
  In c candidates /\ d !! c = None.
Proof.
  unfold firstUntaken. intros H. apply find_some in H. destruct H as [Hin Hfree].
  split; [exact Hin|].
  apply negb_true_iff, bool_decide_eq_false_1 in Hfree.
  destruct (d !! c) as [m|] eqn:Hd; [|reflexivity].
  exfalso. apply Hfree. apply elem_of_list_to_set, list_elem_of_In, filter_In.
  split.
  - apply list_elem_of_In, elem_of_remove_dups, list_elem_of_In, Hin.
  - apply bool_decide_eq_true_2. rewrite Hd. eexists. reflexivity.
Qed.

Lemma generateUniqueStub_from_fresh retry remaining retries b n w c w' :
  exec (generateUniqueStub_from retry remaining retries b n) w = (inr (Some c), w') ->
  List.length c = n /\ Forall (fun u => alphanumeric u = true) c /\ db w !! c = None.
Proof.
  revert retry w. induction remaining as [|r IH]; intros retry w.
  - cbn [generateUniqueStub_from]. unfold exec. cbn [call bind run handle].
    intros H. discriminate H.
  - cbn [generateUniqueStub_from]. unfold exec. rewrite run_bind.
    destruct (exec_randomCandidates b n w) as (cs & E & Hlen & Hal).
    unfold exec in E. rewrite E. cbn [call bind run handle db].
    destruct (firstUntaken _ cs) as [c'|] eqn:Hfirst.
    + cbn [run]. intros H. injection H as -> _.
      apply firstUntaken_free in Hfirst. destruct Hfirst as [Hin Hfree].
      rewrite List.Forall_forall in Hal. destruct (Hal c Hin) as [Hl Ha].
      split; [exact Hl|]. split; [exact Ha | exact Hfree].
    + cbn [call bind run handle]. intros H.
      apply IH in H. cbn [db] in H. exact H.
Qed.

Lemma generateUniqueStub_fresh batchSize retries stubLength w c w' :
  exec (generateUniqueStub batchSize retries stubLength) w = (inr (Some c), w') ->
  List.length c = stubLength /\
  Forall (fun u => alphanumeric u = true) c /\
  db w !! c = None /\
  db w' = db w.
Proof.
  intros H.
  destruct (generateUniqueStub_from_fresh 0 retries retries batchSize stubLength
              w c w' H) as (Hl & Ha & Hf).
  split; [exact Hl|]. split; [exact Ha|]. split; [exact Hf|].
  destruct (quiet_generateUniqueStub batchSize retries stubLength w)
    as (a & w2 & E & D).
  rewrite E in H. injection H as _ <-. exact D.
Qed.

(** X1: A stub that [generateUniqueStub] returns has [stubLength] units, all of
    them in [a-zA-Z0-9], and no row of the table has it; the table itself is
    as it was. *)
Theorem generated_stub_is_fresh batchSize retries stubLength w c w' :
  exec (generateUniqueStub batchSize retries stubLength) w = (inr (Some c), w') ->
  List.length c = stubLength /\
  Forall (fun u => alphanumeric u = true) c /\
  db w !! c = None /\
  db w' = db w.
Proof.
  intros H.
  destruct (generateUniqueStub_from_fresh 0 retries retries batchSize stubLength
              w c w' H) as (Hl & Ha & Hf).
  destruct (quiet_generateUniqueStub batchSize retries stubLength w)
    as (a & w2 & E & D).
  rewrite E in H. injection H as _ <-.
  repeat split; assumption.
Qed.

Lemma generated_stub_is_fresh_witness :
  List.length (JS.lit "AAAAAAAA") = 8 /\
  Forall (fun u => alphanumeric u = true) (JS.lit "AAAAAAAA") /\
  db empty !! JS.lit "AAAAAAAA" = None /\
  db (snd (exec (generateUniqueStub 5 3 8) empty)) = db empty.
Proof.
  apply (generated_stub_is_fresh 5 3 8 empty (JS.lit "AAAAAAAA")
           (snd (exec (generateUniqueStub 5 3 8) empty))).
  vm_compute. reflexivity.
Defined.

Lemma no_rule_violated d data :
  (forall r, violated d data r = false) ->
  some_nonempty (validation_errors d data) = false.
Proof.
  intros H. destruct (some_nonempty (validation_errors d data)) eqn:Hv; [|reflexivity].
  apply some_nonempty_iff in Hv. destruct Hv as [r Hr]. rewrite H in Hr. discriminate.
Qed.

Lemma alphanumeric_no_match s :
  Forall (fun u => alphanumeric u = true) s -> matches_non_alphanumeric s = false.
Proof.
  intros H. unfold matches_non_alphanumeric.
  induction H as [|u s Hu _ IH]; [reflexivity|].
  cbn [existsb]. rewrite Hu, IH. reflexivity.
Qed.

(** A generated stub passes every stub rule. *)
Lemma generated_stub_passes w s w1 content :
  exec (generateUniqueStub 5 3 8) w = (inr (Some s), w1) ->
  forall r, In r stub_rules ->
    violated (db w) {| content := content; readAt := None; stub := s |} r = false.
Proof.
  intros E. destruct (generateUniqueStub_fresh 5 3 8 w s w1 E) as (Hl & Ha & Hf & _).
  intros r [<-|[<-|[<-|[<-|[]]]]]; cbn [violated stub].
  - apply bool_decide_eq_false_2. intros ->. discriminate Hl.
  - unfold JS.length. rewrite Hl. reflexivity.
  - rewrite Hf. apply bool_decide_eq_false_2. intros [m Hm]. discriminate Hm.
  - apply alphanumeric_no_match, Ha.
Qed.

(** A text is storable when it is well-formed and none of its units is 0. *)
Lemma storable_units s :
  Encoding.well_formed s = true -> forallb (fun u => negb (u =? 0)%Z) s = true ->
  storable s.
Proof.
  intros Hwf Hnz. split; [exact Hwf|]. intros Hin.
  apply (proj1 (List.forallb_forall _ _) Hnz) in Hin.
  rewrite Z.eqb_refl in Hin. discriminate Hin.
Qed.

(** X2: Content of 1 to 10000 units that the store can hold (well-formed
    UTF-16 without U+0000) is never refused once a stub was found:
    [createMessage] returns the unread row with that content and that stub,
    and the table after it is the table before it with this one row added. *)
Theorem createMessage_of_valid_content content w s w1 :
  exec (generateUniqueStub 5 3 8) w = (inr (Some s), w1) ->
  storable content ->
  content <> [] ->
  (JS.length content <= 10000)%Z ->
  let row := {| content := content; readAt := None; stub := s |} in
  exec (createMessage content) w = (inr row, with_db w1 (<[s := row]> (db w))) /\
  db w !! s = None.
Proof.
  intros E _ Hne Hlen row.
  destruct (generateUniqueStub_fresh 5 3 8 w s w1 E) as (_ & _ & Hf & D).
  split; [|exact Hf].
  pose proof (exec_create_after (generateUniqueStub 5 3 8) content w (Some s) w1 E D)
    as Hc.
  cbv zeta in Hc. cbn [JS.or_empty] in Hc. fold row in Hc.
  rewrite no_rule_violated in Hc; [exact Hc|].
  intros r. destruct r;
    try solve [apply (generated_stub_passes w s w1 content E); cbn; auto 6].
  - subst row. cbn [violated Model.content]. apply bool_decide_eq_false_2, Hne.
  - subst row. cbn [violated Model.content]. apply Z.ltb_ge, Hlen.
Qed.

Lemma createMessage_of_valid_content_witness :
  let row := {| content := hello; readAt := None; stub := JS.lit "AAAAAAAA" |} in
  exec (createMessage hello) empty
    = (inr row, with_db (snd (exec (generateUniqueStub 5 3 8) empty))
                  (<[JS.lit "AAAAAAAA" := row]> (db empty))) /\
  db empty !! JS.lit "AAAAAAAA" = None.
Proof.
  apply (createMessage_of_valid_content hello empty (JS.lit "AAAAAAAA")
           (snd (exec (generateUniqueStub 5 3 8) empty))).
  - vm_compute. reflexivity.
  - apply storable_units; reflexivity.
  - discriminate.
  - vm_compute. discriminate.
Defined.

End Allocation.

(** ** Requests served one at a time *)

Module Requests.
Import Prog Prog.Notations ProgFacts Model ModelFacts Route Creation Allocation Fixture.

(** X3: [validateMessage] leaves the world as it was, and it returns exactly
    when the content has 1 to 10000 units, the stub has 8 to 32 units, all
    of them in [a-zA-Z0-9], and no row of the table has the stub. *)
Theorem validateMessage_accepts_exactly w data :
  snd (exec (validateMessage data) w) = w /\
  (fst (exec (validateMessage data) w) = inr tt <->
   content data <> [] /\ (JS.length (content data) <= 10000)%Z /\
   (8 <= JS.length (stub data) <= 32)%Z /\
   Forall (fun u => alphanumeric u = true) (stub data) /\
   db w !! stub data = None).
Proof.
  split; [rewrite exec_validateMessage; reflexivity|].
  change (fst (exec (validateMessage data) w) = inr tt) with (accepted w data).
  rewrite accepted_iff. split.
  - intros H.
    pose proof (H ContentRequired) as H1. pose proof (H ContentTooLong) as H2.
    pose proof (H StubLength) as H4. pose proof (H StubUnique) as H5.
    pose proof (H StubAlphanumeric) as H6. cbn [violated] in *.
    apply bool_decide_eq_false_1 in H1. apply Z.ltb_ge in H2.
    apply orb_false_iff in H4. destruct H4 as [H4 H4'].
    apply Z.ltb_ge in H4, H4'. apply bool_decide_eq_false_1 in H5.
    split; [exact H1|]. split; [exact H2|]. split; [lia|]. split.
    + apply List.Forall_forall. intros u Hu.
      destruct (alphanumeric u) eqn:Hau; [reflexivity|]. exfalso.
      assert (Hm : matches_non_alphanumeric (stub data) = true)
        by (apply matches_non_alphanumeric_iff; exists u; split; assumption).
      congruence.
    + destruct (db w !! stub data) as [m|] eqn:Hd; [|reflexivity].
      exfalso. apply H5. exists m. reflexivity.
  - intros (H1 & H2 & H4 & H6 & H5) r. destruct r; cbn [violated].
    + apply bool_decide_eq_false_2, H1.
    + apply Z.ltb_ge, H2.
    + apply bool_decide_eq_false_2. intros E. rewrite E in H4.
      unfold JS.length in H4. cbn in H4. lia.
    + apply orb_false_iff. split; apply Z.ltb_ge; lia.
    + rewrite H5. apply bool_decide_eq_false_2. intros [m Hm]. discriminate Hm.
    + apply alphanumeric_no_match, H6.
Qed.

(** X4: For a request text the store can hold (well-formed UTF-16 without
    U+0000), the creation route never throws and never answers 500 when it
    runs alone.  It answers 200 with the new stub, having added exactly one
    unread row, when a stub was found and the text has 1 to 10000 units;
    in every other case it answers 422 and the table is as it was. *)
Theorem POST_answers_200_or_422 request_text w :
  storable request_text ->
  exists response w',
    exec (POST request_text) w = (inr response, w') /\
    ((exists s,
        response = json (StubBody s) 200 /\
        fst (exec (generateUniqueStub 5 3 8) w) = inr (Some s) /\
        request_text <> [] /\ (JS.length request_text <= 10000)%Z /\
        db w !! s = None /\
        db w' = <[s := {| content := request_text; readAt := None; stub := s |}]> (db w))
     \/
     (exists errors,
        response = json (ErrorsBody errors) 422 /\
        db w' = db w /\
        (fst (exec (generateUniqueStub 5 3 8) w) = inr None
         \/ request_text = [] \/ (10000 < JS.length request_text)%Z))).
Proof.
  intros _.
  destruct (exec_createMessage request_text w) as (generated & w1 & E & D & Hc).
  cbv zeta in Hc. rewrite exec_POST, Hc.
  set (row := {| content := request_text; readAt := None;
                 stub := JS.or_empty generated |}) in *.
  destruct (some_nonempty (validation_errors (db w) row)) eqn:Hv.
  - eexists _, _. split; [reflexivity|]. right.
    exists (validation_errors (db w) row). split; [reflexivity|].
    cbn [db]. split; [exact D|].
    rewrite E. cbn [fst].
    destruct generated as [s|]; [|left; reflexivity]. right.
    apply some_nonempty_iff in Hv. destruct Hv as [r Hr].
    destruct r;
      try solve [rewrite (generated_stub_passes w s w1 request_text E) in Hr;
                 [discriminate Hr | cbn; auto 6]].
    + left. subst row. cbn [violated Model.content] in Hr.
      apply bool_decide_eq_true_1 in Hr. exact Hr.
    + right. subst row. cbn [violated Model.content] in Hr.
      apply Z.ltb_lt in Hr. exact Hr.
  - eexists _, _. split; [reflexivity|]. left.
    assert (Hall : forall r, violated (db w) row r = false).
    { intros r. destruct (violated (db w) row r) eqn:Hr; [|reflexivity].
      assert (some_nonempty (validation_errors (db w) row) = true)
        by (apply some_nonempty_iff; exists r; exact Hr).
      congruence. }
    pose proof (Hall ContentRequired) as H1. pose proof (Hall ContentTooLong) as H2.
    pose proof (Hall StubRequired) as H3. pose proof (Hall StubUnique) as H5.
    subst row. cbn [violated Model.content stub] in H1, H2, H3, H5.
    apply bool_decide_eq_false_1 in H1, H3, H5. apply Z.ltb_ge in H2.
    destruct generated as [s|]; [|exfalso; apply H3; reflexivity].
    cbn [JS.or_empty] in *. exists s. cbn [stub db with_db].
    split; [reflexivity|]. rewrite E. split; [reflexivity|].
    split; [exact H1|]. split; [exact H2|]. split; [|reflexivity].
    destruct (db w !! s) as [m|] eqn:Hd; [|reflexivity].
    exfalso. apply H5. exists m. reflexivity.
Qed.

Lemma POST_answers_200_or_422_witness :
  exists response w',
    exec (POST hello) empty = (inr response, w') /\
    ((exists s,
        response = json (StubBody s) 200 /\
        fst (exec (generateUniqueStub 5 3 8) empty) = inr (Some s) /\
        hello <> [] /\ (JS.length hello <= 10000)%Z /\
        db empty !! s = None /\
        db w' = <[s := {| content := hello; readAt := None; stub := s |}]> (db empty))
     \/
     (exists errors,
        response = json (ErrorsBody errors) 422 /\
        db w' = db empty /\
        (fst (exec (generateUniqueStub 5 3 8) empty) = inr None
         \/ hello = [] \/ (10000 < JS.length hello)%Z))).
Proof.
  apply (POST_answers_200_or_422 hello empty).
  apply storable_units; reflexivity.
Defined.

Lemma exec_GET s w :
  exec (GET s) w =
    match db w !! s with
    | None => (inr (json (ErrorBody "Message not found") 404), w)
    | Some m =>
        (inr (json (MessageBody (content m) (readAt m)) 200),
         match readAt m with
         | Some _ => w
         | None =>
             with_db w (<[s := {| content := SENTINEL; readAt := Some (clock w);
                                  stub := s |}]> (db w))
         end)
    end.
Proof.
  unfold exec, GET, getMessage, markMessageAsRead.
  cbn [call call_throwing bind try_catch run handle].
  destruct (db w !! s) as [m|] eqn:Hd; [|reflexivity].
  cbn [call call_throwing bind try_catch run handle]. rewrite Hd.
  destruct (readAt m) as [t|]; [reflexivity|].
  cbn [call call_throwing bind try_catch run handle]. rewrite Hd. reflexivity.
Qed.

(** X5: For a stub the store can hold (well-formed UTF-16 without U+0000),
    the retrieval route, run alone, never throws and never answers 500: it
    answers 404 and changes nothing when no row has the stub; otherwise it
    answers 200 with the content and [readAt] the row had when it was
    looked up, and an unread row is left holding the sentinel and the time
    of the call, all other rows being as they were. *)
Theorem GET_answers s w :
  storable s ->
  exists response w',
    exec (GET s) w = (inr response, w') /\
    match db w !! s with
    | None => response = json (ErrorBody "Message not found") 404 /\ w' = w
    | Some m =>
        response = json (MessageBody (content m) (readAt m)) 200 /\
        (readAt m <> None -> w' = w) /\
        (readAt m = None ->
           db w' !! s = Some {| content := SENTINEL; readAt := Some (clock w);
                                stub := s |} /\
           forall s', s' <> s -> db w' !! s' = db w !! s')
    end.
Proof.
  intros _. rewrite exec_GET. destruct (db w !! s) as [m|] eqn:Hd.
  - eexists _, _. split; [reflexivity|]. split; [reflexivity|].
    destruct (readAt m) as [t|].
    + split; [reflexivity|]. intros H. discriminate H.
    + split; [intros H; exfalso; apply H; reflexivity|]. intros _.
      cbn [db with_db]. split; [apply lookup_insert_eq|].
      intros s' Hs'. apply lookup_insert_ne. congruence.
  - eexists _, _. split; [reflexivity|]. split; reflexivity.
Qed.

Lemma GET_answers_witness :
  exists response w',
    exec (GET abcdefgh) pending = (inr response, w') /\
    match db pending !! abcdefgh with
    | None => response = json (ErrorBody "Message not found") 404 /\ w' = pending
    | Some m =>
        response = json (MessageBody (content m) (readAt m)) 200 /\
        (readAt m <> None -> w' = pending) /\
        (readAt m = None ->
           db w' !! abcdefgh
             = Some {| content := SENTINEL; readAt := Some (clock pending);
                       stub := abcdefgh |} /\
           forall s', s' <> abcdefgh -> db w' !! s' = db pending !! s')
    end.
Proof.
  apply (GET_answers abcdefgh pending).
  apply storable_units; reflexivity.
Defined.

(** X6: Read once, when requests do not overlap: the first retrieval of an
    unread message answers with its content and a null [readAt]; the next
    retrieval answers with the sentinel and the time of the first, and
    changes nothing. *)
Theorem second_GET_receives_the_sentinel s w m :
  db w !! s = Some m -> readAt m = None ->
  let first := exec (GET s) w in
  let second := exec (GET s) (snd first) in
  fst first = inr (json (MessageBody (content m) None) 200) /\
  fst second = inr (json (MessageBody SENTINEL (Some (clock w))) 200) /\
  snd second = snd first.
Proof.
  intros Hd Hr first second. subst second first.
  rewrite (exec_GET s w), Hd, Hr. cbn [fst snd]. split; [reflexivity|].
  rewrite exec_GET. cbn [db with_db]. rewrite lookup_insert_eq.
  cbn [readAt content fst snd]. split; reflexivity.
Qed.

Lemma second_GET_receives_the_sentinel_witness :
  let first := exec (GET abcdefgh) pending in
  let second := exec (GET abcdefgh) (snd first) in
  fst first = inr (json (MessageBody secret None) 200) /\
  fst second = inr (json (MessageBody SENTINEL (Some (clock pending))) 200) /\
  snd second = snd first.
Proof.
  apply (second_GET_receives_the_sentinel abcdefgh pending
           (mkMessage secret None abcdefgh)); reflexivity.
Defined.

End Requests.

(** ** Requests that overlap *)

Module Overlap.
Import Prog Prog.Notations ProgFacts Model ModelFacts Route Concurrent Server Fixture.

Section EveryCall.
Context (ok : forall X, Op X -> Prop).

Lemma every_call_bind {A B} (m : M A) (f : A -> M B) :
  every_call ok m -> (forall a, every_call ok (f a)) -> every_call ok (bind m f).
Proof.
  intros Hm Hf. induction m as [a|e|X op k IH]; cbn [bind every_call] in *.
  - apply Hf.
  - exact I.
  - destruct Hm as [Hop Hk]. split; [exact Hop|]. intros x. apply IH, Hk.
Qed.

Lemma every_call_try_catch {A} (m : M A) (h : Exn -> M A) :
  every_call ok m -> (forall e, every_call ok (h e)) -> every_call ok (try_catch m h).
Proof.
  intros Hm Hh. induction m as [a|e|X op k IH]; cbn [try_catch every_call] in *.
  - exact I.
  - apply Hh.
  - destruct Hm as [Hop Hk]. split; [exact Hop|]. intros x. apply IH, Hk.
Qed.

Lemma every_call_call {X} (op : Op X) : ok X op -> every_call ok (call op).
Proof. intros H. split; [exact H|]. intros x. exact I. Qed.

Lemma every_call_call_throwing {X} (op : Op (Exn + X)) :
  ok _ op -> every_call ok (call_throwing op).
Proof. intros H. split; [exact H|]. intros [e|x]; exact I. Qed.

Context (inv : gmap jsstring Message -> Prop).
Context (handle_keeps : forall X (op : Op X) w,
           ok X op -> inv (db w) -> inv (db (snd (handle X op w)))).

Lemma resume_keeps {A} (m : M A) w :
  every_call ok m -> inv (db w) ->
  every_call ok (fst (resume handle suspends m w)) /\
  inv (db (snd (resume handle suspends m w))).
Proof.
  revert w. induction m as [a|e|X op k IH]; intros w Hm Hw.
  - split; assumption.
  - split; assumption.
  - cbn [resume]. destruct Hm as [Hop Hk].
    pose proof (handle_keeps X op w Hop Hw) as Hw'.
    destruct (handle X op w) as [x w'] eqn:Hh. cbn [snd] in Hw'.
    destruct (suspends X op).
    + split; [apply Hk | exact Hw'].
    + apply IH; [apply Hk | exact Hw'].
Qed.

Lemma step_keeps {A} (st : State A) ev :
  Forall (every_call ok) (fst st) -> inv (db (snd st)) ->
  Forall (every_call ok) (fst (step st ev)) /\ inv (db (snd (step st ev))).
Proof.
  destruct st as [pool w]. cbn [fst snd]. intros Hpool Hw.
  destruct ev as [i|ms]; cbn [step].
  - destruct (pool !! i) as [m|] eqn:Hi; [|split; assumption].
    assert (Hm : every_call ok m).
    { rewrite Forall_lookup in Hpool. apply (Hpool i m Hi). }
    destruct (resume_keeps m w Hm Hw) as [Hm' Hw'].
    destruct (resume handle suspends m w) as [m' w']. cbn [fst snd] in *.
    split; [|exact Hw']. apply Forall_insert; assumption.
  - split; assumption.
Qed.

Lemma interleave_keeps {A} schedule (st : State A) :
  Forall (every_call ok) (fst st) -> inv (db (snd st)) ->
  Forall (every_call ok) (fst (interleave schedule st)) /\
  inv (db (snd (interleave schedule st))).
Proof.
  revert st. induction schedule as [|ev schedule IH]; intros st Hpool Hw.
  - split; assumption.
  - cbn [interleave fold_left]. destruct (step_keeps st ev Hpool Hw) as [Hp' Hw'].
    apply IH; assumption.
Qed.

End EveryCall.

Lemma every_call_impl (ok ok' : forall X, Op X -> Prop) {A} (m : M A) :
  (forall X op, ok X op -> ok' X op) -> every_call ok m -> every_call ok' m.
Proof.
  intros Himpl. induction m as [a|e|X op k IH]; cbn [every_call]; try exact id.
  intros [Hop Hk]. split; [apply Himpl, Hop|]. intros x. apply IH, Hk.
Qed.

Ltac every_call_step :=
  first
    [ apply every_call_bind; [|intros ?]
    | apply every_call_try_catch; [|intros ?]
    | apply every_call_call; repeat split
    | apply every_call_call_throwing; repeat split
    | exact I ].

Lemma consumes_only_randomCandidate n :
  every_call consumes_only (randomCandidate n).
Proof.
  induction n as [|n IH]; cbn [randomCandidate]; [exact I|].
  repeat every_call_step. exact IH.
Qed.

Lemma consumes_only_randomCandidates b n :
  every_call consumes_only (randomCandidates b n).
Proof.
  induction b as [|b IH]; cbn [randomCandidates]; [exact I|].
  every_call_step; [apply consumes_only_randomCandidate|].
  every_call_step; [exact IH|]. exact I.
Qed.

Lemma consumes_only_generateUniqueStub_from retry remaining retries b n :
  every_call consumes_only (generateUniqueStub_from retry remaining retries b n).
Proof.
  revert retry. induction remaining as [|r IH]; intros retry;
    cbn [generateUniqueStub_from].
  - repeat every_call_step.
  - every_call_step; [apply consumes_only_randomCandidates|].
    every_call_step; [every_call_step|].
    destruct (firstUntaken _ _); [exact I|].
    every_call_step; [every_call_step|]. apply IH.
Qed.

Lemma consumes_only_validateMessage data :
  every_call consumes_only (validateMessage data).
Proof.
  unfold validateMessage. every_call_step; [every_call_step|].
  destruct (some_nonempty _); exact I.
Qed.

Lemma consumes_only_POST request_text :
  every_call consumes_only (POST request_text).
Proof.
  unfold POST, createMessage, generateUniqueStub.
  every_call_step.
  - every_call_step; [|exact I].
    every_call_step; [apply consumes_only_generateUniqueStub_from|].
    every_call_step; [apply consumes_only_validateMessage|].
    every_call_step.
  - every_call_step; [every_call_step|]. destruct e; exact I.
Qed.

Lemma consumes_only_GET s : every_call consumes_only (GET s).
Proof.
  unfold GET, getMessage, markMessageAsRead.
  every_call_step.
  - every_call_step; [every_call_step|]. destruct a as [m|]; [|exact I].
    every_call_step; [|exact I].
    every_call_step; [every_call_step|]. destruct a as [m'|]; [|exact I].
    destruct (readAt m'); [exact I|].
    every_call_step; [every_call_step|].
    every_call_step; [|exact I].
    apply every_call_call_throwing. split; [reflexivity | exact I].
  - every_call_step; [every_call_step | exact I].
Qed.

Lemma writes_sentinel_DELETE s : every_call writes_sentinel (DELETE s).
Proof.
  unfold DELETE, deleteMessage.
  every_call_step.
  - every_call_step; [|exact I]. apply every_call_call_throwing. exact I.
  - every_call_step; [every_call_step | exact I].
Qed.

Lemma writes_sentinel_serve r : every_call writes_sentinel (serve r).
Proof.
  destruct r as [t|s|s]; cbn [serve].
  - apply (every_call_impl consumes_only); [intros X op [H _]; exact H|].
    apply consumes_only_POST.
  - apply (every_call_impl consumes_only); [intros X op [H _]; exact H|].
    apply consumes_only_GET.
  - apply writes_sentinel_DELETE.
Qed.

Lemma consumes_only_serve r : is_delete r = false -> every_call consumes_only (serve r).
Proof.
  destruct r as [t|s|s]; cbn [serve is_delete]; intros H.
  - apply consumes_only_POST.
  - apply consumes_only_GET.
  - discriminate H.
Qed.

Lemma handle_keeps_read_rows X (op : Op X) w :
  writes_sentinel X op -> read_rows_hold_sentinel (db w) ->
  read_rows_hold_sentinel (db (snd (handle X op w))).
Proof.
  intros Hop Hw.
  destruct op as [s0|cands|c0 s0|s0 c0 t0|s0|mx| |entry];
    cbn [handle writes_sentinel] in *; try exact Hw.
  - destruct (db w !! s0) as [m|]; [exact Hw|]. cbn [snd db with_db].
    intros s m Hs Hr. apply lookup_insert_Some in Hs.
    destruct Hs as [[_ <-]|[_ Hs]]; [exfalso; apply Hr; reflexivity|].
    apply (Hw s m Hs Hr).
  - destruct (db w !! s0) as [m|]; [|exact Hw]. cbn [snd db with_db].
    intros s m' Hs Hr. apply lookup_insert_Some in Hs.
    destruct Hs as [[_ <-]|[_ Hs]]; [exact Hop|].
    apply (Hw s m' Hs Hr).
  - destruct (db w !! s0) as [m|]; [|exact Hw]. cbn [snd db with_db].
    intros s m' Hs Hr. apply lookup_delete_Some in Hs. destruct Hs as [_ Hs].
    apply (Hw s m' Hs Hr).
Qed.

Lemma handle_keeps_consumed s X (op : Op X) w :
  consumes_only X op -> consumed_at (db w) s -> consumed_at (db (snd (handle X op w))) s.
Proof.
  intros [Hop Hkeep] Hw.
  destruct op as [s0|cands|c0 s0|s0 c0 t0|s0|mx| |entry];
    cbn [handle writes_sentinel keeps_rows] in *; try exact Hw.
  - destruct (db w !! s0) as [m|] eqn:Hd; [exact Hw|]. cbn [snd db with_db].
    destruct Hw as (m & Hs & Hr & Hc). exists m.
    split; [|split; assumption].
    rewrite lookup_insert_ne; [exact Hs|]. intros <-. congruence.
  - destruct (db w !! s0) as [m|] eqn:Hd; [|exact Hw]. cbn [snd db with_db].
    destruct (decide (s0 = s)) as [<-|Hne].
    + eexists. split; [apply lookup_insert_eq|]. cbn [Model.readAt Model.content].
      split; [discriminate | exact Hop].
    + destruct Hw as (m' & Hs & Hr & Hc). exists m'.
      split; [|split; assumption]. rewrite lookup_insert_ne; assumption.
  - destruct Hkeep.
Qed.

(** X7: However the requests in flight interleave, and whatever they are, a
    row that has [readAt] set holds the sentinel: no execution leaves a row
    marked read with its content still in place. *)
Theorem read_rows_hold_sentinel_always requests schedule w :
  read_rows_hold_sentinel (db w) ->
  read_rows_hold_sentinel (db (snd (interleave schedule (map serve requests, w)))).
Proof.
  intros Hw.
  apply (interleave_keeps writes_sentinel read_rows_hold_sentinel
           handle_keeps_read_rows schedule (map serve requests, w)).
  - cbn [fst]. apply Forall_map, Forall_forall. intros r _.
    apply writes_sentinel_serve.
  - exact Hw.
Qed.

Lemma read_rows_hold_sentinel_always_witness :
  read_rows_hold_sentinel
    (db (snd (interleave [Resume 0; Resume 1; Resume 0; Resume 1; Resume 0; Resume 1]
                ([serve (Get abcdefgh); serve (Get abcdefgh)], pending)))).
Proof.
  apply (read_rows_hold_sentinel_always [Get abcdefgh; Get abcdefgh]
           [Resume 0; Resume 1; Resume 0; Resume 1; Resume 0; Resume 1] pending).
  intros s m Hs Hr.
  change (db pending)
    with (<[abcdefgh := mkMessage secret None abcdefgh]> (∅ : gmap jsstring Message))
    in Hs.
  apply lookup_insert_Some in Hs. destruct Hs as [[_ <-]|[_ Hs]].
  - exfalso. apply Hr. reflexivity.
  - rewrite lookup_empty in Hs. discriminate Hs.
Defined.

(** X8: However creations and retrievals in flight interleave, a row that has
    been read and holds the sentinel stays read and keeps the sentinel: the
    content it had does not come back. *)
Theorem consumed_rows_stay_consumed requests schedule w s :
  Forall (fun r => is_delete r = false) requests ->
  consumed_at (db w) s ->
  consumed_at (db (snd (interleave schedule (map serve requests, w)))) s.
Proof.
  intros Hreq Hw.
  apply (interleave_keeps consumes_only (fun d => consumed_at d s)
           (handle_keeps_consumed s) schedule (map serve requests, w)).
  - cbn [fst]. apply Forall_map. eapply List.Forall_impl; [|exact Hreq].
    intros r Hr. apply consumes_only_serve, Hr.
  - exact Hw.
Qed.

Lemma consumed_rows_stay_consumed_witness :
  consumed_at
    (db (snd (interleave [Resume 0; Resume 1; Resume 0; Resume 1; Resume 1; Resume 1]
                (map serve [Get abcdefgh; Post hello], consumed))))
    abcdefgh.
Proof.
  apply (consumed_rows_stay_consumed [Get abcdefgh; Post hello]
           [Resume 0; Resume 1; Resume 0; Resume 1; Resume 1; Resume 1]
           consumed abcdefgh).
  - repeat constructor.
  - exists (mkMessage SENTINEL (Some 900%Z) abcdefgh).
    split; [reflexivity|]. split; [discriminate | reflexivity].
Defined.

End Overlap.

(** ** More on the envelope *)

Module EnvelopeText.
Import Prog Prog.Notations ProgFacts ListFacts Base64 Base64Facts Encoding EncodingFacts.
Import Crypto CryptoFacts Wire Fixture.
Local Open Scope Z_scope.

(** X9: On a buffer of bytes no longer than the number of arguments the
    engine accepts in one call, [arrayBufferToBase64] returns a text, and
    [base64ToArrayBuffer] of that text is the buffer; on a longer buffer it
    throws the [RangeError] of [String.fromCharCode.apply]. *)
Theorem base64_round_trip P bytes w w' :
  Forall is_byte bytes ->
  (Z.of_nat (List.length bytes) <= max_arguments P ->
   exists text,
     exec P (arrayBufferToBase64 bytes) w = (inr text, w) /\
     exec P (base64ToArrayBuffer text) w' = (inr bytes, w')) /\
  (max_arguments P < Z.of_nat (List.length bytes) ->
   exec P (arrayBufferToBase64 bytes) w = (inl RangeError, w)).
Proof.
  intros Hb. split; intros Hlen.
  - exists (encode bytes). split.
    + apply exec_arrayBufferToBase64; assumption.
    + apply exec_base64ToArrayBuffer_encode, Hb.
  - apply exec_arrayBufferToBase64_too_long, Hlen.
Qed.

Lemma base64_round_trip_witness :
  (exists text,
     exec Toy.primitives (arrayBufferToBase64 [104; 105; 255; 0]) browser
       = (inr text, browser) /\
     exec Toy.primitives (base64ToArrayBuffer text) browser
       = (inr [104; 105; 255; 0], browser)) /\
  exec Toy.primitives (arrayBufferToBase64 (repeat 0 (Z.to_nat 65537))) browser
    = (inl RangeError, browser).
Proof.
  split.
  - apply (proj1 (base64_round_trip Toy.primitives [104; 105; 255; 0] browser browser
                    ltac:(repeat constructor; unfold is_byte; lia))).
    vm_compute. discriminate.
  - apply (proj2 (base64_round_trip Toy.primitives (repeat 0 (Z.to_nat 65537))
                    browser browser
                    ltac:(apply Forall_forall; intros b Hb;
                          apply list_elem_of_In, repeat_spec in Hb; subst b;
                          unfold is_byte; lia))).
    rewrite repeat_length. vm_compute. reflexivity.
Defined.

Lemma encode_length bytes :
  Z.of_nat (List.length (encode bytes)) = 4 * ((Z.of_nat (List.length bytes) + 2) / 3).
Proof.
  induction bytes as [| a | a b | a b c rest IH] using list_ind3.
  - reflexivity.
  - reflexivity.
  - reflexivity.
  - cbn [encode]. rewrite length_app.
    change (List.length (a :: b :: c :: rest)) with (3 + List.length rest)%nat.
    match goal with |- context [List.length [?x1; ?x2; ?x3; ?x4]] =>
      change (List.length [x1; x2; x3; x4]) with 4%nat end.
    rewrite !Nat2Z.inj_add, IH.
    change (Z.of_nat 4) with 4. change (Z.of_nat 3) with 3.
    generalize (Z.of_nat (List.length rest)). intros n. zdiv.
Qed.

Lemma encode_units bytes : Forall is_byte bytes -> Forall base64_unit (encode bytes).
Proof.
  intros Hb. rewrite encode_split. apply Forall_app. split.
  - eapply List.Forall_impl; [|apply encode_body_chars, Hb].
    intros c (v & Hv & ->). left. rewrite index_char by exact Hv. eexists. reflexivity.
  - destruct (body_length bytes) as (k & _ & [[_ ->]|[[_ ->]|[_ ->]]]);
      repeat (constructor; [right; reflexivity|]); constructor.
Qed.

(** X10: For [n] bytes, [n] no more than the number of arguments the
    engine accepts in one call, [arrayBufferToBase64] returns a text of
    [4 * ceil (n / 3)] units, each a character of the base64 alphabet or
    [=]. *)
Theorem arrayBufferToBase64_text P bytes w :
  Forall is_byte bytes ->
  Z.of_nat (List.length bytes) <= max_arguments P ->
  exists text,
    fst (exec P (arrayBufferToBase64 bytes) w) = inr text /\
    JS.length text = 4 * ((Z.of_nat (List.length bytes) + 2) / 3) /\
    Forall base64_unit text.
Proof.
  intros Hb Hlen. exists (encode bytes).
  rewrite exec_arrayBufferToBase64 by assumption.
  split; [reflexivity|]. split; [apply encode_length | apply encode_units, Hb].
Qed.

Lemma arrayBufferToBase64_text_witness :
  exists text,
    fst (exec Toy.primitives (arrayBufferToBase64 [104; 105; 255; 0]) browser)
      = inr text /\
    JS.length text = 4 * ((Z.of_nat (List.length [104; 105; 255; 0]) + 2) / 3) /\
    Forall base64_unit text.
Proof.
  apply (arrayBufferToBase64_text Toy.primitives [104; 105; 255; 0] browser).
  - repeat constructor; unfold is_byte; lia.
  - vm_compute. discriminate.
Defined.

Lemma atob_squeeze a b : squeeze a = squeeze b -> atob a = atob b.
Proof.
  intros H. unfold atob, forgiving_decode. fold (squeeze a). fold (squeeze b).
  rewrite H. reflexivity.
Qed.

(** X11: ASCII whitespace in the fields of an envelope does not matter to
    [decrypt]: two envelopes that differ only in it give the same result. *)
Theorem decrypt_ignores_whitespace P a b password w :
  same_but_whitespace a b ->
  exec P (decrypt a password) w = exec P (decrypt b password) w.
Proof.
  intros (Hd & Hi & Hs). unfold exec, decrypt, base64ToArrayBuffer.
  rewrite (atob_squeeze _ _ Hd), (atob_squeeze _ _ Hi), (atob_squeeze _ _ Hs).
  reflexivity.
Qed.

Lemma decrypt_ignores_whitespace_witness :
  exec Toy.primitives
    (decrypt {| data := JS.lit "AAAA AAAA AAAA AAAA AAAA AA=="; iv := JS.lit " AAAA";
                salt := JS.lit "AA AA" |} pw) browser
  = exec Toy.primitives
      (decrypt {| data := JS.lit "AAAAAAAAAAAAAAAAAAAAAA=="; iv := JS.lit "AAAA";
                  salt := JS.lit "AAAA" |} pw) browser.
Proof.
  apply (decrypt_ignores_whitespace Toy.primitives).
  split; [|split]; vm_compute; reflexivity.
Defined.

End EnvelopeText.

(** ** What [encrypt] puts in the envelope *)

Module EnvelopeContent.
Import Prog Prog.Notations ProgFacts ListFacts Base64 Base64Facts Encoding EncodingFacts.
Import Crypto CryptoFacts Wire Fixture.
Local Open Scope Z_scope.

Lemma to_scalars_scalar_upto n s :
  (List.length s <= n)%nat -> Forall code_unit s -> Forall scalar (to_scalars s).
Proof.
  revert s. induction n as [|n IH]; intros s Hn Hs.
  - destruct s; [constructor | cbn in Hn; lia].
  - destruct s as [|c rest]; [constructor|].
    inversion_clear Hs as [|? ? Hc Hrest]. unfold code_unit in Hc.
    cbn [List.length] in Hn. cbn [to_scalars].
    unfold is_lead_surrogate, is_trail_surrogate, REPLACEMENT.
    destruct (in_range_spec 0xD800 0xDBFF c) as [Hl|Hl].
    + destruct rest as [|d rest'].
      * repeat constructor; unfold scalar; lia.
      * destruct (in_range_spec 0xDC00 0xDFFF d) as [Hd|Hd].
        -- inversion_clear Hrest as [|? ? _ Hrest'].
           constructor; [unfold scalar; lia|].
           apply IH; [cbn [List.length] in Hn; lia | exact Hrest'].
        -- constructor; [unfold scalar; lia|].
           apply IH; [lia | exact Hrest].
    + destruct (in_range_spec 0xDC00 0xDFFF c) as [Ht|Ht].
      * constructor; [unfold scalar; lia|]. apply IH; [lia | exact Hrest].
      * constructor; [unfold scalar; lia|]. apply IH; [lia | exact Hrest].
Qed.

Lemma to_scalars_of_units s : Forall code_unit s -> Forall scalar (to_scalars s).
Proof. apply (to_scalars_scalar_upto (List.length s)). lia. Qed.

(** X12: What comes back from [decrypt] after [encrypt], for every string
    whose ciphertext (its UTF-8 bytes and the 16 bytes of the tag) is no
    longer than the number of arguments the engine accepts in one call: the
    plaintext with each unpaired surrogate replaced by U+FFFD and without a
    U+FEFF at its start. *)
Theorem decrypt_encrypt_normalises P plaintext password w :
  Lawful P ->
  Forall code_unit plaintext ->
  Z.of_nat (List.length (TextEncoder_encode plaintext)) + 16 <= max_arguments P ->
  exists envelope,
    fst (exec P (encrypt plaintext password) w) = inr envelope /\
    forall w',
      fst (exec P (decrypt envelope password) w')
        = inr (from_scalars (strip_bom (to_scalars plaintext))).
Proof.
  intros HP Hu Hlen. exists (envelope P plaintext password w). split.
  - rewrite exec_encrypt by assumption. reflexivity.
  - intros w'. pose proof (to_scalars_of_units plaintext Hu) as Hs.
    rewrite exec_decrypt_envelope by (exact HP || apply utf8_encode_bytes, Hs).
    cbn [fst]. unfold TextDecoder_decode, TextEncoder_encode.
    rewrite utf8_decode_encode by exact Hs. reflexivity.
Qed.

Lemma decrypt_encrypt_normalises_witness :
  exists envelope,
    fst (exec Toy.primitives (encrypt [0xD800; 65] pw) browser) = inr envelope /\
    forall w',
      fst (exec Toy.primitives (decrypt envelope pw) w')
        = inr (from_scalars (strip_bom (to_scalars [0xD800; 65]))).
Proof.
  apply (decrypt_encrypt_normalises Toy.primitives [0xD800; 65] pw browser).
  - exact toy_lawful.
  - repeat constructor; unfold code_unit; lia.
  - vm_compute. discriminate.
Defined.

(** X13: [encrypt] takes 28 values from the generator: the first 16, as
    bytes, are the salt and the next 12 the iv.  When the ciphertext (the
    UTF-8 bytes of the plaintext and the 16 bytes of the tag) is no longer
    than the number of arguments the engine accepts in one call, [encrypt]
    returns an envelope whose three fields decode to that salt, that iv,
    and the plaintext in UTF-8 sealed under the key that PBKDF2 with
    SHA-256 and 10000 iterations derives, in 256 bits, from the password in
    UTF-8 and that salt.  When the ciphertext is longer, [encrypt] throws
    the [RangeError] of [String.fromCharCode.apply]. *)
Theorem encrypt_envelope_fields P plaintext password w :
  Lawful P ->
  let salt := map (fun i => entropy w (drawn w + i)%nat mod 256) (seq 0 16) in
  let iv := map (fun i => entropy w (drawn w + 16 + i)%nat mod 256) (seq 0 12) in
  let key := pbkdf2 P "SHA-256" (TextEncoder_encode password) salt 10000 256 in
  let size := Z.of_nat (List.length (TextEncoder_encode plaintext)) + 16 in
  (size <= max_arguments P ->
   exists envelope w',
     exec P (encrypt plaintext password) w = (inr envelope, w') /\
     drawn w' = (drawn w + 28)%nat /\
     fst (exec P (base64ToArrayBuffer (Crypto.salt envelope)) w') = inr salt /\
     fst (exec P (base64ToArrayBuffer (Crypto.iv envelope)) w') = inr iv /\
     fst (exec P (base64ToArrayBuffer (data envelope)) w')
       = inr (aes_gcm_seal P key iv (TextEncoder_encode plaintext))) /\
  (max_arguments P < size ->
   exists w',
     exec P (encrypt plaintext password) w = (inl RangeError, w') /\
     drawn w' = (drawn w + 28)%nat).
Proof.
  intros HP salt iv key size. split; intros Hlen.
  - eexists _, _. split.
    + apply exec_encrypt; assumption.
    + split; [cbn [drawn after]; lia|].
      unfold envelope. cbn [Crypto.salt Crypto.iv data].
      rewrite !exec_base64ToArrayBuffer_encode
        by (apply random_values_bytes || apply (seal_bytes P HP)).
      cbn [fst]. split; [reflexivity|]. split; reflexivity.
  - eexists. split.
    + apply exec_encrypt_too_long; assumption.
    + cbn [drawn after]. lia.
Qed.

Lemma encrypt_envelope_fields_witness :
  let w := browser in
  let salt := map (fun i => entropy w (drawn w + i)%nat mod 256) (seq 0 16) in
  let iv := map (fun i => entropy w (drawn w + 16 + i)%nat mod 256) (seq 0 12) in
  let key := pbkdf2 Toy.primitives "SHA-256" (TextEncoder_encode pw) salt 10000 256 in
  (exists envelope w',
     exec Toy.primitives (encrypt hello pw) w = (inr envelope, w') /\
     drawn w' = (drawn w + 28)%nat /\
     fst (exec Toy.primitives (base64ToArrayBuffer (Crypto.salt envelope)) w') = inr salt /\
     fst (exec Toy.primitives (base64ToArrayBuffer (Crypto.iv envelope)) w') = inr iv /\
     fst (exec Toy.primitives (base64ToArrayBuffer (data envelope)) w')
       = inr (aes_gcm_seal Toy.primitives key iv (TextEncoder_encode hello))) /\
  (exists w',
     exec Toy.primitives (encrypt (letters 65536) pw) w = (inl RangeError, w') /\
     drawn w' = (drawn w + 28)%nat).
Proof.
  split.
  - apply (proj1 (encrypt_envelope_fields Toy.primitives hello pw browser toy_lawful)).
    vm_compute. discriminate.
  - apply (proj2 (encrypt_envelope_fields Toy.primitives (letters 65536) pw browser
                    toy_lawful)).
    vm_compute. reflexivity.
Defined.

Lemma pick_characters_spec values result :
  Forall (fun u => In u characters) result ->
  List.length (pick_characters values result)
    = (List.length result + List.length values)%nat /\
  Forall (fun u => In u characters) (pick_characters values result).
Proof.
  revert result. induction values as [|v values IH]; intros result Hr.
  - cbn [pick_characters List.length]. split; [lia | exact Hr].
  - cbn [pick_characters].
    assert (Hi : (Z.to_nat (v mod Z.of_nat (List.length characters))
                  < List.length characters)%nat).
    { change (Z.of_nat (List.length characters)) with 62.
      change (List.length characters) with 62%nat. zdiv. }
    destruct (nth_error characters
                (Z.to_nat (v mod Z.of_nat (List.length characters)))) as [c|] eqn:Hc.
    + unfold JS.at_appended. rewrite Hc.
      destruct (IH (result ++ [c])) as [Hl Hf].
      { apply Forall_app. split; [exact Hr|].
        constructor; [|constructor]. apply (nth_error_In _ _ Hc). }
      split; [|exact Hf]. rewrite Hl, length_app. cbn [List.length]. lia.
    + apply nth_error_None in Hc. lia.
Qed.

(** X14: [generateRandomString] of a length from 0 to 16384 returns a string
    of that many units, each one of the 62 letters and digits; of a greater
    length that a typed array can have it throws the [QuotaExceededError]
    of [getRandomValues]; of a negative length, or one no typed array can
    have, it throws the [RangeError] of [new Uint32Array]. *)
Theorem generateRandomString_result P (length : Z) w :
  (0 <= length <= 16384 -> length <= array_limit P ->
   exists s,
     fst (exec P (generateRandomString length) w) = inr s /\
     JS.length s = length /\
     Forall (fun u => In u characters) s) /\
  (16384 < length <= array_limit P ->
   exec P (generateRandomString length) w = (inl QuotaExceededError, w)) /\
  (length < 0 \/ array_limit P < length ->
   exec P (generateRandomString length) w = (inl RangeError, w)).
Proof.
  split; [|split].
  - intros Hn Hmax. rewrite <- (Z2Nat.id length) by lia.
    rewrite exec_generateRandomString by lia. cbn [fst].
    destruct (pick_characters_spec
                (random_values Uint32Array w (Z.to_nat length)) [])
      as [Hl Hf]; [constructor|].
    eexists. split; [reflexivity|]. split; [|exact Hf].
    unfold JS.length. rewrite Hl, random_values_length. reflexivity.
  - apply exec_generateRandomString_quota.
  - apply exec_generateRandomString_range.
Qed.

Lemma generateRandomString_result_witness :
  (exists s,
     fst (exec Toy.primitives (generateRandomString 12) browser) = inr s /\
     JS.length s = 12 /\
     Forall (fun u => In u characters) s) /\
  exec Toy.primitives (generateRandomString 16385) browser
    = (inl QuotaExceededError, browser) /\
  exec Toy.primitives (generateRandomString 1152921504606846976) browser
    = (inl RangeError, browser) /\
  exec Toy.primitives (generateRandomString (-1)) browser
    = (inl RangeError, browser).
Proof.
  split; [|split; [|split]].
  - apply (proj1 (generateRandomString_result Toy.primitives 12 browser)).
    + lia.
    + vm_compute. discriminate.
  - apply (proj1 (proj2 (generateRandomString_result Toy.primitives 16385 browser))).
    split; [lia | vm_compute; discriminate].
  - apply (proj2 (proj2 (generateRandomString_result Toy.primitives
                           1152921504606846976 browser))).
    right. vm_compute. reflexivity.
  - apply (proj2 (proj2 (generateRandomString_result Toy.primitives (-1) browser))).
    left. lia.
Defined.

End EnvelopeContent.

(** ** Creation, retrieval and deletion one after the other *)

Module Lifecycle.
Import Prog Prog.Notations ProgFacts Model ModelFacts Route Creation Allocation.
Import Requests Fixture.

Lemma generateUniqueStub_from_null retry remaining retries b n w w' :
  exec (generateUniqueStub_from retry remaining retries b n) w = (inr None, w') ->
  console w' = console w ++ map WarnAttemptFailed (seq (retry + 1) remaining)
                 ++ [ErrorFailedAfter retries] /\
  drawn w' = drawn w + remaining * (b * n).
Proof.
  revert retry w. induction remaining as [|r IH]; intros retry w.
  - cbn [generateUniqueStub_from]. unfold exec. cbn [call bind run handle].
    intros H. injection H as <-. cbn [console drawn seq map app]. split; [reflexivity|lia].
  - cbn [generateUniqueStub_from]. unfold exec. rewrite run_bind.
    destruct (exec_randomCandidates b n w) as (cs & E & _).
    unfold exec in E. rewrite E. cbn [call bind run handle db].
    destruct (firstUntaken _ cs) as [c'|].
    + cbn [run]. intros H. discriminate H.
    + cbn [call bind run handle]. intros H. apply IH in H.
      cbn [console drawn] in H. destruct H as [Hc Hd]. split.
      * rewrite Hc, <- app_assoc. cbn [seq map app].
        replace (S retry + 1) with (S (retry + 1)) by lia. reflexivity.
      * rewrite Hd. lia.
Qed.

(** X15: When [generateUniqueStub] returns [null] it has made every one of its
    [retries] attempts: it has drawn [retries * batchSize * stubLength]
    values, and the console has gained one warning per attempt, numbered
    from 1, and then the error that names the number of attempts. *)
Theorem exhaustion_is_logged batchSize retries stubLength w w' :
  exec (generateUniqueStub batchSize retries stubLength) w = (inr None, w') ->
  console w' = console w ++ map WarnAttemptFailed (seq 1 retries)
                 ++ [ErrorFailedAfter retries] /\
  drawn w' = drawn w + retries * (batchSize * stubLength) /\
  db w' = db w.
Proof.
  intros H.
  destruct (generateUniqueStub_from_null 0 retries retries batchSize stubLength w w' H)
    as [Hc Hd].
  split; [exact Hc|]. split; [exact Hd|].
  destruct (quiet_generateUniqueStub batchSize retries stubLength w) as (a & w2 & E & D).
  rewrite E in H. injection H as _ <-. exact D.
Qed.

Lemma exhaustion_is_logged_witness :
  let w' := snd (exec (generateUniqueStub 5 3 8) taken) in
  console w' = console taken ++ map WarnAttemptFailed (seq 1 3) ++ [ErrorFailedAfter 3] /\
  drawn w' = drawn taken + 3 * (5 * 8) /\
  db w' = db taken.
Proof.
  apply (exhaustion_is_logged 5 3 8 taken (snd (exec (generateUniqueStub 5 3 8) taken))).
  vm_compute. reflexivity.
Defined.

(** X16: What was created is what the first retrieval returns: after the
    creation route has answered 200 with a stub, the retrieval route for
    that stub answers 200 with the text of the creation request and a null
    [readAt]. *)
Theorem GET_after_POST request_text w s w1 :
  exec (POST request_text) w = (inr (json (StubBody s) 200), w1) ->
  fst (exec (GET s) w1) = inr (json (MessageBody request_text None) 200).
Proof.
  rewrite exec_POST.
  destruct (exec_createMessage request_text w) as (generated & w0 & E & D & Hc).
  cbv zeta in Hc. rewrite Hc.
  destruct (some_nonempty _).
  - intros H. discriminate H.
  - intros H. injection H as <- <-. rewrite exec_GET.
    cbn [stub db with_db]. rewrite lookup_insert_eq. reflexivity.
Qed.

Lemma GET_after_POST_witness :
  fst (exec (GET (JS.lit "AAAAAAAA")) (snd (exec (POST hello) empty)))
  = inr (json (MessageBody hello None) 200).
Proof.
  apply (GET_after_POST hello empty (JS.lit "AAAAAAAA") (snd (exec (POST hello) empty))).
  vm_compute. reflexivity.
Defined.

(** X17: [deleteMessage] throws, and changes nothing, exactly when no row has
    the stub; otherwise it returns the row and removes it: retrieval of
    that stub then answers 404, and every other row is as it was. *)
Theorem deleteMessage_removes_the_row s w :
  match db w !! s with
  | None => exec (deleteMessage s) w = (inl P2025, w)
  | Some m =>
      exists w',
        exec (deleteMessage s) w = (inr m, w') /\
        fst (exec (GET s) w') = inr (json (ErrorBody "Message not found") 404) /\
        forall s', s' <> s -> db w' !! s' = db w !! s'
  end.
Proof.
  unfold exec, deleteMessage. cbn [call_throwing run handle].
  destruct (db w !! s) as [m|] eqn:Hd; [|reflexivity].
  eexists. split; [reflexivity|].
  fold (exec (GET s) (with_db w (delete s (db w)))). rewrite exec_GET.
  cbn [db with_db]. rewrite lookup_delete_eq. split; [reflexivity|].
  intros s' Hs'. apply lookup_delete_ne. congruence.
Qed.

End Lifecycle.

(** ** What overlapping retrievals are told *)

Module Told.
Import Prog Prog.Notations ProgFacts Model ModelFacts Route Concurrent Server.
Import Overlap Fixture.

Lemma every_return_bind {A B} (good' : A -> Prop) (good : B -> Prop)
    (m : M A) (f : A -> M B) :
  every_return good' m -> (forall a, good' a -> every_return good (f a)) ->
  every_return good (bind m f).
Proof.
  intros Hm Hf. induction m as [a|e|X op k IH]; cbn [bind every_return] in *.
  - apply Hf, Hm.
  - exact I.
  - intros x Hx. apply IH, Hm, Hx.
Qed.

Lemma every_return_try_catch {A} (good : A -> Prop) (m : M A) (h : Exn -> M A) :
  every_return good m -> (forall e, every_return good (h e)) ->
  every_return good (try_catch m h).
Proof.
  intros Hm Hh. induction m as [a|e|X op k IH]; cbn [try_catch every_return] in *.
  - exact Hm.
  - apply Hh.
  - intros x Hx. apply IH, Hm, Hx.
Qed.

Lemma every_return_any {A} (m : M A) : every_return (fun _ => True) m.
Proof.
  induction m as [a|e|X op k IH]; cbn [every_return]; try exact I.
  intros x _. apply IH.
Qed.

Lemma read_means_sentinel_GET s : every_return read_means_sentinel (GET s).
Proof.
  unfold GET, getMessage. apply every_return_try_catch.
  - cbn [call bind every_return plausible]. intros found Hfound.
    destruct found as [m|].
    + apply (every_return_bind (fun _ => True)); [apply every_return_any|].
      intros _ _. cbn [every_return]. intros c t st H.
      injection H as <- Hr _. apply (Hfound m eq_refl). rewrite Hr. discriminate.
    + cbn [every_return]. intros c t st H. discriminate H.
  - intros e. cbn [call bind every_return]. intros _ _ c t st H. discriminate H.
Qed.

Lemma read_means_sentinel_POST request_text :
  every_return read_means_sentinel (POST request_text).
Proof.
  unfold POST. apply every_return_try_catch.
  - apply (every_return_bind (fun _ => True)); [apply every_return_any|].
    intros message _ c t st H. discriminate H.
  - intros e. cbn [call bind every_return]. intros _ _.
    destruct e; cbn [every_return]; intros c t st H; discriminate H.
Qed.

Lemma read_means_sentinel_DELETE s : every_return read_means_sentinel (DELETE s).
Proof.
  unfold DELETE. apply every_return_try_catch.
  - apply (every_return_bind (fun _ => True)); [apply every_return_any|].
    intros message _ c t st H. discriminate H.
  - intros e. cbn [call bind every_return]. intros _ _ c t st H. discriminate H.
Qed.

Lemma read_means_sentinel_serve r : every_return read_means_sentinel (serve r).
Proof.
  destruct r; cbn [serve];
    [apply read_means_sentinel_POST | apply read_means_sentinel_GET
    | apply read_means_sentinel_DELETE].
Qed.

Lemma handle_plausible X (op : Op X) w :
  read_rows_hold_sentinel (db w) -> plausible X op (fst (handle X op w)).
Proof.
  intros Hw. destruct op as [s0|cands|c0 s0|s0 c0 t0|s0|mx| |entry];
    cbn [plausible]; try exact I.
  cbn [handle fst]. intros m Hm. apply (Hw s0 m Hm).
Qed.

Lemma resume_in_order {A} (good : A -> Prop) (m : M A) w :
  in_order good m -> read_rows_hold_sentinel (db w) ->
  in_order good (fst (resume handle suspends m w)) /\
  read_rows_hold_sentinel (db (snd (resume handle suspends m w))).
Proof.
  revert w. induction m as [a|e|X op k IH]; intros w [Hc Hr] Hw.
  - split; [split|]; assumption.
  - split; [split|]; assumption.
  - cbn [resume]. destruct Hc as [Hop Hk]. cbn [every_return] in Hr.
    pose proof (handle_keeps_read_rows X op w Hop Hw) as Hw'.
    pose proof (handle_plausible X op w Hw) as Hx.
    destruct (handle X op w) as [x w']. cbn [fst snd] in *.
    destruct (suspends X op).
    + split; [split; [apply Hk | apply Hr, Hx] | exact Hw'].
    + apply IH; [split; [apply Hk | apply Hr, Hx] | exact Hw'].
Qed.

Lemma interleave_in_order {A} (good : A -> Prop) schedule (st : State A) :
  Forall (in_order good) (fst st) -> read_rows_hold_sentinel (db (snd st)) ->
  Forall (in_order good) (fst (interleave schedule st)) /\
  read_rows_hold_sentinel (db (snd (interleave schedule st))).
Proof.
  revert st. induction schedule as [|ev schedule IH]; intros st Hpool Hw.
  - split; assumption.
  - cbn [interleave fold_left]. apply IH.
    + destruct st as [pool w]. cbn [fst snd] in *.
      destruct ev as [i|ms]; cbn [step]; [|exact Hpool].
      destruct (pool !! i) as [m|] eqn:Hi; [|exact Hpool].
      assert (Hm : in_order good m)
        by (rewrite Forall_lookup in Hpool; apply (Hpool i m Hi)).
      destruct (resume_in_order good m w Hm Hw) as [Hm' _].
      destruct (resume handle suspends m w) as [m' w']. cbn [fst snd] in *.
      apply Forall_insert; assumption.
    + destruct st as [pool w]. cbn [fst snd] in *.
      destruct ev as [i|ms]; cbn [step]; [|exact Hw].
      destruct (pool !! i) as [m|] eqn:Hi; [|exact Hw].
      assert (Hm : in_order good m)
        by (rewrite Forall_lookup in Hpool; apply (Hpool i m Hi)).
      destruct (resume_in_order good m w Hm Hw) as [_ Hw'].
      destruct (resume handle suspends m w) as [m' w']. exact Hw'.
Qed.

(** X18: However the requests in flight interleave, a retrieval that is told the
    message was already read is not given its content: a response that
    carries a non-null [readAt] carries the sentinel. *)
Theorem told_read_means_given_sentinel requests schedule w i c t st :
  read_rows_hold_sentinel (db w) ->
  returned (interleave schedule (map serve requests, w)) i
    = Some (json (MessageBody c (Some t)) st) ->
  c = SENTINEL.
Proof.
  intros Hw Hret.
  destruct (interleave_in_order read_means_sentinel schedule (map serve requests, w))
    as [Hpool _].
  - cbn [fst]. apply Forall_map, Forall_forall. intros r _.
    split; [apply writes_sentinel_serve | apply read_means_sentinel_serve].
  - exact Hw.
  - unfold returned in Hret.
    destruct (fst (interleave schedule (map serve requests, w)) !! i) as [m|] eqn:Hi;
      [|discriminate Hret].
    rewrite Forall_lookup in Hpool. destruct (Hpool i m Hi) as [_ Hgood].
    destruct m as [r|e|X op k]; try discriminate Hret.
    injection Hret as ->. cbn [every_return] in Hgood.
    apply (Hgood c t st eq_refl).
Qed.

Lemma told_read_means_given_sentinel_witness :
  returned (interleave [Resume 0; Resume 0; Resume 0; Resume 1; Resume 1]
              (map serve [Get abcdefgh; Get abcdefgh], pending)) 1
    = Some (json (MessageBody SENTINEL (Some 1000%Z)) 200%Z) /\
  SENTINEL = SENTINEL.
Proof.
  split; [vm_compute; reflexivity|].
  apply (told_read_means_given_sentinel [Get abcdefgh; Get abcdefgh]
           [Resume 0; Resume 0; Resume 0; Resume 1; Resume 1] pending 1
           SENTINEL 1000%Z 200%Z).
  - intros s m Hs Hr.
    change (db pending)
      with (<[abcdefgh := mkMessage secret None abcdefgh]> (∅ : gmap jsstring Message))
      in Hs.
    apply lookup_insert_Some in Hs. destruct Hs as [[_ <-]|[_ Hs]].
    + exfalso. apply Hr. reflexivity.
    + rewrite lookup_empty in Hs. discriminate Hs.
  - vm_compute. reflexivity.
Defined.

End Told.
